(** * khal.controllers: the agenda and list pipelines

    A shallow embedding of [khal/controllers.py]: the day-window pipeline
    ([get_agenda]) and the range pipeline ([get_list_from_str], [get_list]),
    with the collaborators the module imports (the calendar collection, the
    event class, [khal.aux], the terminal helpers) taken as interfaces. *)

From Stdlib Require Import ZArith Lia Bool List String Ascii.
From Stdlib Require Import Sorting.Sorted Sorting.Permutation.
From stdpp Require Import base option list gmap strings.
Import ListNotations.

Local Open Scope Z_scope.

(** ** The Python values the controllers compute with *)

Module Py.

(** The exceptions the controllers raise or catch. *)
Inductive exn : Type :=
| InvalidDate (msg : string)
| ValueError (msg : string)
| KeyError (key : string).

(** How a call ends when it does not return: [Exit e status] is
    [logging.fatal(e); sys.exit(status)]; [Uncaught e] is an exception
    that leaves the call. *)
Inductive abort : Type :=
| Exit (logged : exn) (status : Z)
| Uncaught (e : exn).

Inductive result (A : Type) : Type :=
| Ok (a : A)
| Abort (b : abort).
Arguments Ok {A} a.
Arguments Abort {A} b.

Definition bind {A B : Type} (c : result A) (k : A -> result B) : result B :=
  match c with
  | Ok a => k a
  | Abort b => Abort b
  end.

Definition raise {A : Type} (e : exn) : result A := Abort (Uncaught e).

(** [logging.fatal(e); sys.exit(1)] *)
Definition fatal {A : Type} (e : exn) : result A := Abort (Exit e 1).

(** [try: c  except <class> as e: handler e]; [handler] answers [None] for
    the exceptions the clause does not catch.  [SystemExit] is never
    caught by the clauses of this module. *)
Definition try_except {A : Type} (c : result A)
    (handler : exn -> option (result A)) : result A :=
  match c with
  | Abort (Uncaught e) =>
      match handler e with
      | Some r => r
      | None => c
      end
  | _ => c
  end.

(** A list comprehension or a [for] loop whose body may raise. *)
Fixpoint mapM {A B : Type} (f : A -> result B) (l : list A) : result (list B) :=
  match l with
  | [] => Ok []
  | x :: l' =>
      bind (f x) (fun y => bind (mapM f l') (fun ys => Ok (y :: ys)))
  end.

Fixpoint foldM {A S : Type} (f : S -> A -> result S) (l : list A) (s : S) : result S :=
  match l with
  | [] => Ok s
  | x :: l' => bind (f s x) (fun s' => foldM f l' s')
  end.

(** *** Dates and datetimes

    A [datetime.date] is its proleptic Gregorian ordinal
    ([date.toordinal()]); a wall-clock reading is a number of
    microseconds, [ordinal * DAY + microseconds since midnight]. *)

Definition DAY : Z := 86400000000.

(** [datetime.time.min] and [datetime.time.max], in microseconds since
    midnight: 00:00:00 and 23:59:59.999999. *)
Definition time_min : Z := 0.
Definition time_max : Z := DAY - 1.

Record datetime : Type := mkdt { wall : Z; tzinfo : option string }.

(** [datetime.combine(d, t)], a naive datetime. *)
Definition combine (d : Z) (t : Z) : datetime :=
  {| wall := d * DAY + t; tzinfo := None |}.

(** [dt.date()] *)
Definition date (dt : datetime) : Z := wall dt / DAY.

(** [dt + timedelta], wall-clock arithmetic that keeps the zone. *)
Definition dt_add (dt : datetime) (delta : Z) : datetime :=
  {| wall := wall dt + delta; tzinfo := tzinfo dt |}.

(** [dt.replace(tzinfo=None)] *)
Definition replace_tzinfo_none (dt : datetime) : datetime :=
  {| wall := wall dt; tzinfo := None |}.

(** [a < b] on two datetimes of the same kind (both naive, or both in the
    same zone): the wall-clock readings are compared. *)
Definition dt_ltb (a b : datetime) : bool := wall a <? wall b.

(** What a parameter documented as "a date or a datetime" holds. *)
Inductive temporal : Type :=
| ADate (d : Z)
| ADatetime (dt : datetime).

(** [datetime._ymd2ord] and [date.weekday()] (Monday is 0). *)
Definition is_leap (y : Z) : bool :=
  (y mod 4 =? 0) && (negb (y mod 100 =? 0) || (y mod 400 =? 0)).

Definition days_before_year (y : Z) : Z :=
  let y1 := y - 1 in y1 * 365 + y1 / 4 - y1 / 100 + y1 / 400.

Definition days_before_month (y m : Z) : Z :=
  nth (Z.to_nat m) [0; 0; 31; 59; 90; 120; 151; 181; 212; 243; 273; 304; 334] 0
  + (if (2 <? m) && is_leap y then 1 else 0).

Definition ymd2ord (y m d : Z) : Z :=
  days_before_year y + days_before_month y m + d.

Definition weekday (d : Z) : Z := (d + 6) mod 7.

(** [range(n)] *)
Definition range (n : Z) : list Z := map Z.of_nat (seq 0 (Z.to_nat n)).

(** *** [sorted]

    [sorted] compares with [<] only and is stable.  Under an order that
    is a strict weak order the stable arrangement is unique, so the
    insertion sort below returns what the interpreter's merge sort
    returns. *)
Fixpoint insort {A : Type} (lt : A -> A -> bool) (x : A) (l : list A) : list A :=
  match l with
  | [] => [x]
  | y :: l' => if lt y x then y :: insort lt x l' else x :: y :: l'
  end.

Definition sorted {A : Type} (lt : A -> A -> bool) (l : list A) : list A :=
  foldr (insort lt) [] l.

End Py.
Import Py.

Declare Scope result_scope.
Delimit Scope result_scope with result.
Notation "x <- c ;; k" := (Py.bind c (fun x => k))
  (at level 100, c at next level, right associativity) : result_scope.

(** ** Collaborators

    The modules [khal/controllers.py] imports are not part of this
    development; each is taken as an interface. *)

(** The [locale] dictionary: the entries the controllers and
    [aux.datetime_fillin] read. *)
Record Locale : Type := mkLocale {
  longdateformat : string;
  local_timezone : string
}.

(** [khal.khalendar.event.Event]: the attributes and methods used here.
    [event_lt] is [Event.__lt__], the canonical event order [sorted]
    applies.  [event_format] raises [KeyError] when the template names a
    field that is not available. *)
Class EventClass (Event : Type) : Type := {
  event_start : Event -> temporal;
  event_color : Event -> string;
  event_lt : Event -> Event -> bool;
  event_format :
    Event -> option string -> datetime * datetime -> gmap string string -> result string;
  event_relative_to : Event -> Z -> bool -> string
}.

(** [khalendar.CalendarCollection]: the three queries; each returns the
    events in no particular order.  This is the collection whose queries
    return; a query that raises, and with it the fill-in and the
    comparisons that raise, is [Reads], over which [get_list_reads] runs
    the same lines call by call. *)
Record CalendarCollection (Event : Type) : Type := mkCollection {
  get_events_on : Z -> list Event;
  get_localized : datetime -> datetime -> list Event;
  get_floating : datetime -> datetime -> list Event
}.
Arguments get_events_on {Event} _ _.
Arguments get_localized {Event} _ _ _.
Arguments get_floating {Event} _ _ _.

(** [khal.aux]: the parsers, and the clock behind [date.today()], which
    is taken to stand still during a call.  The parsers return naive
    datetimes; a duration is in microseconds. *)
Class Aux : Type := {
  today : Z;
  guessdatetimefstr : list string -> Locale -> result (datetime * bool);
  guessrangefstr :
    list string -> Locale -> option string -> result (option datetime * option datetime);
  guesstimedeltafstr : string -> result Z
}.

(** [click.style], [khal.terminal.colored], [textwrap.wrap],
    [str.splitlines] and [date.strftime]. *)
Class Terminal : Type := {
  style : string -> bool -> string;
  colored : string -> string -> bool -> string;
  textwrap_wrap : string -> Z -> result (list string);
  splitlines : string -> list string;
  strftime : Z -> string -> string
}.

(** Modelled from the spec: the zone step of [aux.datetime_fillin], which
    is not among the sources.  A naive datetime is put in the zone of the
    locale, when one is given, at the same wall-clock reading; a zoned
    datetime is left as it is. *)
Definition localize (locale : option Locale) (dt : datetime) : datetime :=
  match locale, tzinfo dt with
  | Some l, None => {| wall := wall dt; tzinfo := Some (local_timezone l) |}
  | _, _ => dt
  end.

(** Modelled from the spec: [aux.datetime_fillin(dt=None, end=True,
    locale=None, day=None)], which is not among the sources.  Given a bare
    date or a datetime and an [end] flag it returns a datetime at the start
    of the day ([datetime.time.min], 00:00:00) or at the end of the day
    ([datetime.time.max], 23:59:59.999999), in the zone of the locale when
    one is given; a datetime keeps its time.  Without [dt] the day filled
    in is [day], or today. *)
Definition datetime_fillin `{Aux} (dt : option temporal) (end_ : bool)
    (locale : option Locale) (day : option datetime) : datetime :=
  let day := match day with Some d => date d | None => today end in
  let dt := match dt with Some x => x | None => ADate day end in
  match dt with
  | ADate d => localize locale (combine d (if end_ then time_max else time_min))
  | ADatetime x => localize locale x
  end.

(** ** [construct_daynames] *)

Definition construct_daynames `{Aux} `{Terminal} (daylist : list Z)
    (longdateformat : string) : list (Z * string) :=
  map (fun day =>
         if day =? today then (day, "Today:"%string)
         else if day =? today + 1 then (day, "Tomorrow:"%string)
         else (day, strftime day longdateformat))
      daylist.

(** ** [get_agenda] *)

Section Agenda.
Context {Event : Type} `{EventClass Event} `{Aux} `{Terminal}.

(** Lines 86-97: the anchor dates, today when none is given; an anchor is
    a string or a [date]: a string is parsed, a date is kept, and
    [InvalidDate] is fatal. *)
Definition agenda_dates (locale : Locale) (dates : option (list (string + Z)))
    : result (list Z) :=
  match dates with
  | None | Some [] => Ok [today]
  | Some dates =>
      try_except
        (mapM (fun day =>
                 match day with
                 | inl s => (x <- guessdatetimefstr [s] locale ;; Ok (date (fst x)))%result
                 | inr d => Ok d
                 end) dates)
        (fun e => match e with InvalidDate _ => Some (fatal e) | _ => None end)
  end.

(** Lines 99-107: the week snap, then the expansion to [days] days per
    anchor, sorted. *)
Definition agenda_daylist (dates : list Z) (firstweekday : Z) (days : Z)
    (week : bool) : list Z :=
  let dates := if week
               then map (fun d => d - (weekday d - firstweekday) mod 7) dates
               else dates in
  let days := if week then 7 else days in
  sorted Z.ltb (flat_map (fun one => map (fun day => day + one) dates) (range days)).

(** Lines 120-127: the lines of one event. *)
Definition agenda_event_lines (event : Event) (day : Z) (width : Z) (full : bool)
    (bold_for_light_color : bool) : result (list string) :=
  let items := splitlines (event_relative_to event day full) in
  (lines <- foldM (fun lines item =>
                     (wrapped <- textwrap_wrap item width ;; Ok (lines ++ wrapped))%result)
                  items [] ;;
   Ok (map (fun line => colored line (event_color event) bold_for_light_color) lines))%result.

(** Lines 111-127: the body of the loop over the named days. *)
Definition agenda_day (collection : CalendarCollection Event) (width : Z)
    (full show_all_days bold_for_light_color : bool)
    (event_column : list string) (entry : Z * string) : result (list string) :=
  let day := fst entry in
  let dayname := snd entry in
  let events := sorted event_lt (get_events_on collection day) in
  if bool_decide (events = []) && negb show_all_days then Ok event_column
  else
    let event_column :=
      if bool_decide (event_column = []) then event_column else event_column ++ [EmptyString] in
    let event_column := event_column ++ [style dayname true] in
    foldM (fun column event =>
             (lines <- agenda_event_lines event day width full bold_for_light_color ;;
              Ok (column ++ lines))%result)
          events event_column.

Definition agenda_column (collection : CalendarCollection Event) (locale : Locale)
    (dates : option (list (string + Z))) (firstweekday : Z) (days : option Z)
    (width : Z) (week full show_all_days bold_for_light_color : bool)
    : result (list string) :=
  let days := default 2 days in
  (dates <- agenda_dates locale dates ;;
   let daylist := agenda_daylist dates firstweekday days week in
   let daylist := construct_daynames daylist (longdateformat locale) in
   foldM (agenda_day collection width full show_all_days bold_for_light_color)
         daylist [])%result.

Definition get_agenda (collection : CalendarCollection Event) (locale : Locale)
    (dates : option (list (string + Z))) (firstweekday : Z) (days : option Z)
    (width : Z) (week full show_all_days bold_for_light_color : bool)
    : result (list string) :=
  (event_column <- agenda_column collection locale dates firstweekday days width
                     week full show_all_days bold_for_light_color ;;
   Ok (if bool_decide (event_column = [])
       then [style "No events" true]
       else event_column))%result.

End Agenda.

(** Line 100: the anchor moved back to the first day of its week. *)
Definition week_start (firstweekday d : Z) : Z :=
  d - (weekday d - firstweekday) mod 7.


(** ** [get_list] and [get_list_from_str] *)

Section List.
Context {Event : Type} `{EventClass Event} `{Aux} `{Terminal}.

(** [if width:] *)
Definition width_given (width : option Z) : bool :=
  match width with
  | Some w => negb (w =? 0)
  | None => false
  end.

(** Lines 281-283: the two queries, each sorted, then the concatenation
    sorted again. *)
Definition merge_events (collection : CalendarCollection Event)
    (start_local end_local start end_ : datetime) : list Event :=
  let events := sorted event_lt (get_localized collection start_local end_local) in
  let events_float := sorted event_lt (get_floating collection start end_) in
  sorted event_lt (events ++ events_float).

(** [event_start.replace(tzinfo=None)] of line 286. *)
Definition naive_start (locale : Locale) (event : Event) : datetime :=
  replace_tzinfo_none
    (datetime_fillin (Some (event_start event)) false (Some locale) None).

(** Lines 285-296: the body of the loop over the merged events. *)
Definition render_event (locale : Locale) (format : option string)
    (notstarted : bool) (env : gmap string string) (width : option Z)
    (start end_ : datetime) (event_list : list string) (event : Event)
    : result (list string) :=
  if negb (notstarted && dt_ltb (naive_start locale event) start) then
    (event_string <-
       try_except (event_format event format (start, end_) env)
         (fun e => match e with KeyError _ => Some (fatal e) | _ => None end) ;;
     if width_given width then
       (lines <- textwrap_wrap event_string (default 0 width) ;;
        Ok (event_list ++ lines))
     else Ok (event_list ++ [event_string]))%result
  else Ok event_list.

Definition get_list (collection : CalendarCollection Event) (locale : Locale)
    (start end_ : temporal) (format : option string) (notstarted : bool)
    (env : option (gmap string string)) (width : option Z) : result (list string) :=
  let env := default ∅ env in
  let start_local := datetime_fillin (Some start) false (Some locale) None in
  let end_local := datetime_fillin (Some end_) true (Some locale) None in
  let start := replace_tzinfo_none start_local in
  let end_ := replace_tzinfo_none end_local in
  let events := merge_events collection start_local end_local start end_ in
  foldM (render_event locale format notstarted env width start end_) events [].

(** The guard of line 286: the event passes the [notstarted] filter. *)
Definition event_kept (locale : Locale) (notstarted : bool) (start : datetime)
    (event : Event) : bool :=
  negb (notstarted && dt_ltb (naive_start locale event) start).

(** Lines 287-296: the lines one rendered event contributes. *)
Definition event_lines (format : option string) (env : gmap string string)
    (width : option Z) (start end_ : datetime) (event : Event) : result (list string) :=
  (event_string <-
     try_except (event_format event format (start, end_) env)
       (fun e => match e with KeyError _ => Some (fatal e) | _ => None end) ;;
   if width_given width then textwrap_wrap event_string (default 0 width)
   else Ok [event_string])%result.

(** The lines of a sequence of events, one block per event, in order. *)
Definition render_events (format : option string) (env : gmap string string)
    (width : option Z) (start end_ : datetime) (events : list Event)
    : result (list string) :=
  (blocks <- mapM (event_lines format env width start end_) events ;;
   Ok (concat blocks))%result.

(** The output wrapping as the specification words it: the rendered text
    split on its line breaks, each line wrapped to the width, each wrapped
    line colorized with the colour of the event's calendar. *)
Definition split_wrapped_colored (text : string) (width : Z) (color : string)
    (bold_for_light_color : bool) : result (list string) :=
  (blocks <- mapM (fun item => textwrap_wrap item width) (splitlines text) ;;
   Ok (map (fun line => colored line color bold_for_light_color) (concat blocks)))%result.

(** The text of the [InvalidDate] raised at line 225. *)
Definition quote : string := String (ascii_of_nat 34) EmptyString.
Definition invalid_range_message (daterange : list string) : string :=
  ("Invalid date range: " +:+ quote +:+ String.concat " " daterange +:+ quote)%string.

(** Lines 208-229: the range the tokens stand for. *)
Definition list_range (locale : Locale) (daterange : list string)
    (default_timedelta : option string) : result (datetime * datetime) :=
  if (length daterange =? 0)%nat then
    let start := datetime_fillin None false None None in
    match default_timedelta with
    | None => Ok (start, datetime_fillin None true None (Some start))
    | Some td =>
        try_except
          (delta <- guesstimedeltafstr td ;; Ok (start, dt_add start delta))%result
          (fun e => match e with ValueError _ => Some (fatal e) | _ => None end)
    end
  else
    try_except
      (range <- guessrangefstr daterange locale default_timedelta ;;
       match range with
       | (Some start, Some end_) => Ok (start, end_)
       | _ => raise (InvalidDate (invalid_range_message daterange))
       end)%result
      (fun e => match e with InvalidDate _ => Some (fatal e) | _ => None end).

(** Lines 236-238: where the sub-range that starts at [start] ends. *)
Definition day_end_of (start end_ : datetime) : datetime :=
  let day_end := datetime_fillin (Some (ADate (date start))) true None None in
  if date start =? date end_ then end_ else day_end.

(** Line 241: the start of the next sub-range. *)
Definition next_day_start (start : datetime) : datetime :=
  dt_add (datetime_fillin (Some (ADate (date start))) false None None) DAY.

(** Lines 235-241: the [while] loop.  Each turn moves [start] to the next
    midnight, so [loop_fuel] turns are enough ([day_loop_unfold],
    [partition_unfold]). *)
Fixpoint day_loop (fuel : nat) (collection : CalendarCollection Event)
    (locale : Locale) (format : option string) (notstarted : bool)
    (env : gmap string string) (width : option Z)
    (start end_ : datetime) (event_column : list string) : result (list string) :=
  match fuel with
  | O => Ok event_column
  | S fuel =>
      if dt_ltb start end_ then
        let day_end := day_end_of start end_ in
        (lines <- get_list collection locale (ADatetime start) (ADatetime day_end)
                    format notstarted (Some env) width ;;
         day_loop fuel collection locale format notstarted env width
           (next_day_start start) end_ (event_column ++ lines))%result
      else Ok event_column
  end.

Definition loop_fuel (start end_ : datetime) : nat :=
  Z.to_nat (date end_ - date start + 2).

(** Lines 231-244. *)
Definition list_column (collection : CalendarCollection Event) (locale : Locale)
    (format : option string) (notstarted once : bool)
    (env : option (gmap string string)) (width : option Z)
    (start end_ : datetime) : result (list string) :=
  if negb once then
    let env := default ∅ env in
    day_loop (loop_fuel start end_) collection locale format notstarted env width
      start end_ []
  else
    get_list collection locale (ADatetime start) (ADatetime end_) format notstarted
      None width.

(** [get_list_from_str]; [width] is what [**kwargs] may carry on to
    [get_list]. *)
Definition get_list_from_str (collection : CalendarCollection Event)
    (locale : Locale) (daterange : list string) (notstarted : bool)
    (format : option string) (once : bool) (default_timedelta : option string)
    (env : option (gmap string string)) (width : option Z) : result (list string) :=
  (range <- list_range locale daterange default_timedelta ;;
   event_column <- list_column collection locale format notstarted once env width
                     (fst range) (snd range) ;;
   Ok (if bool_decide (event_column = [])
       then [style "No events" true]
       else event_column))%result.

(** The call of lines 239-240 on one sub-range. *)
Definition window_lines (collection : CalendarCollection Event) (locale : Locale)
    (format : option string) (notstarted : bool) (env : gmap string string)
    (width : option Z) (w : datetime * datetime) : result (list string) :=
  get_list collection locale (ADatetime (fst w)) (ADatetime (snd w)) format
    notstarted (Some env) width.

(** Line 245 and line 129: what is returned for a column. *)
Definition or_placeholder (event_column : list string) : list string :=
  if bool_decide (event_column = []) then [style "No events" true] else event_column.

(** The sub-ranges the loop of lines 235-241 hands to [get_list], in
    order. *)
Fixpoint day_windows (fuel : nat) (start end_ : datetime) : list (datetime * datetime) :=
  match fuel with
  | O => []
  | S fuel =>
      if dt_ltb start end_
      then (start, day_end_of start end_) :: day_windows fuel (next_day_start start) end_
      else []
  end.

Definition partition (start end_ : datetime) : list (datetime * datetime) :=
  day_windows (loop_fuel start end_) start end_.

End List.

(** The instants the sub-ranges of [windows] hold, each sub-range taken
    half-open. *)
Definition covers (windows : list (datetime * datetime)) (t : Z) : Prop :=
  exists w, In w windows /\ wall (fst w) <= t < wall (snd w).

(** What holds of the sub-ranges of a range, as the loop produces them. *)
Definition partition_shape (start end_ : datetime)
    (windows : list (datetime * datetime)) : Prop :=
  StronglySorted (fun w1 w2 => wall (snd w1) < wall (fst w2)) windows
  /\ Forall (fun w => wall start <= wall (fst w) <= wall (snd w)
                      /\ wall (snd w) <= wall end_) windows
  /\ (forall t, covers windows t
                <-> wall start <= t < wall end_ /\ t mod DAY <> time_max)
  /\ (forall w, head windows = Some w -> fst w = start)
  /\ Forall (fun w => wall (fst w) mod DAY = 0) (tail windows)
  /\ Forall (fun w => wall (snd w)
                      = if date (fst w) =? date end_ then wall end_
                        else date (fst w) * DAY + time_max) windows.


(** ** The canonical event order *)

(** The wall-clock reading an event start stands for: a bare date is its
    midnight. *)
Definition start_wall (t : temporal) : Z :=
  match t with
  | ADate d => d * DAY
  | ADatetime dt => wall dt
  end.

(** [a <= b]: [b < a] does not hold. *)
Definition le_of {A : Type} (lt : A -> A -> bool) (a b : A) : Prop := lt b a = false.

(** What [sorted] needs of [<] to return an ordered list. *)
Class StrictWeakOrder {A : Type} (lt : A -> A -> bool) : Prop := {
  lt_asym : forall a b, lt a b = true -> lt b a = false;
  le_trans : forall a b c, le_of lt a b -> le_of lt b c -> le_of lt a c
}.

(** Modelled from the spec: [Event.__lt__] is not among the sources.  The
    canonical event order is a total ordering of the events with the start
    time as primary key; the tie-break is left to the event layer. *)
Class CanonicalOrder (Event : Type) `{EventClass Event} : Prop := {
  canonical_order :: StrictWeakOrder (@event_lt Event _);
  canonical_start : forall a b : Event,
    start_wall (event_start a) < start_wall (event_start b) -> event_lt a b = true
}.

(** ** A small calendar to run the pipelines on *)

Module Sample.

Record event : Type := mk_event {
  ev_start : temporal;
  ev_uid : Z;
  ev_summary : string;
  ev_color : string
}.

(** Start time first, then the uid. *)
Definition lt (a b : event) : bool :=
  let ka := start_wall (ev_start a) in
  let kb := start_wall (ev_start b) in
  (ka <? kb) || ((ka =? kb) && (ev_uid a <? ev_uid b)).

(** A one-field template: [summary] is the event's own field, any other
    name is looked up among the static values of [env]. *)
Definition format (e : event) (template : option string)
    (relative_to : datetime * datetime) (env : gmap string string) : result string :=
  match template with
  | None => Ok (ev_summary e)
  | Some key =>
      if String.eqb key "summary" then Ok (ev_summary e)
      else match env !! key with
           | Some v => Ok (v +:+ " " +:+ ev_summary e)%string
           | None => raise (KeyError key)
           end
  end.

#[global] Instance event_class : EventClass event := {|
  event_start := ev_start;
  event_color := ev_color;
  event_lt := lt;
  event_format := format;
  event_relative_to := fun e _ _ => ev_summary e
|}.

(** A collection that holds [zoned] and [floating] events and answers
    each query with the events that start inside the range. *)
Definition starts_in (lo hi : Z) (e : event) : bool :=
  (lo <=? start_wall (ev_start e)) && (start_wall (ev_start e) <? hi).

Definition collection (zoned floating : list event) : CalendarCollection event := {|
  get_events_on := fun day =>
    List.filter (starts_in (day * DAY) ((day + 1) * DAY)) (zoned ++ floating);
  get_localized := fun s e => List.filter (starts_in (wall s) (wall e)) zoned;
  get_floating := fun s e => List.filter (starts_in (wall s) (wall e)) floating
|}.

(** A collection whose queries answer with all it holds, whatever the
    range: every event is taken to overlap it. *)
Definition overlapping (zoned floating : list event) : CalendarCollection event := {|
  get_events_on := fun _ => zoned ++ floating;
  get_localized := fun _ _ => zoned;
  get_floating := fun _ _ => floating
|}.

(** An [aux] with a fixed clock whose parsers give fixed answers. *)
Definition aux (today_ : Z)
    (range : result (option datetime * option datetime)) : Aux := {|
  today := today_;
  guessdatetimefstr := fun _ _ => raise (InvalidDate "no date");
  guessrangefstr := fun _ _ _ => range;
  guesstimedeltafstr := fun text =>
    if String.eqb text "1d" then Ok DAY else raise (ValueError text)
|}.

Definition locale : Locale :=
  {| longdateformat := "%A, %d.%m.%Y"; local_timezone := "Europe/Berlin" |}.

(** 2024-06-12, a Wednesday. *)
Definition june12 : Z := ymd2ord 2024 6 12.

(** Naive and zoned datetimes on a day, given hour and minute. *)
Definition at_ (day h m : Z) : Z := day * DAY + (h * 60 + m) * 60000000.
Definition naive (day h m : Z) : datetime := {| wall := at_ day h m; tzinfo := None |}.
Definition zoned (day h m : Z) : datetime :=
  {| wall := at_ day h m; tzinfo := Some "Europe/Berlin"%string |}.

Definition floating_8 : event :=
  mk_event (ADatetime (naive june12 8 0)) 2 "breakfast" "dark green".
Definition zoned_9 : event :=
  mk_event (ADatetime (zoned june12 9 0)) 1 "standup" "light blue".

(** A stand-up whose text has two lines. *)
Definition newline : string := String (ascii_of_nat 10) EmptyString.
Definition two_lines : event :=
  mk_event (ADatetime (zoned june12 9 0)) 3
    ("standup" +:+ newline +:+ "room 4")%string "light blue".

End Sample.

(** ** The text primitives, for running the pipelines

    [str.splitlines] and [textwrap.wrap] with its default options, on
    ASCII text without tabs and hyphens (tab expansion and the breaks
    after hyphens are left out). *)

Module Text.

Definition code (c : ascii) : nat := nat_of_ascii c.

(** The line boundaries of [str.splitlines] below 128. *)
Definition is_linebreak (c : ascii) : bool :=
  let n := code c in
  ((10 <=? n) && (n <=? 13) || (28 <=? n) && (n <=? 30))%nat.

Fixpoint splitlines_from (cur : list ascii) (s : list ascii) : list string :=
  match s with
  | [] => match cur with [] => [] | _ => [string_of_list_ascii (rev cur)] end
  | c :: s' =>
      if is_linebreak c then
        string_of_list_ascii (rev cur) ::
          match s' with
          | d :: s'' =>
              if ((code c =? 13) && (code d =? 10))%nat
              then splitlines_from [] s''
              else splitlines_from [] s'
          | [] => []
          end
      else splitlines_from (c :: cur) s'
  end.

Definition splitlines (s : string) : list string :=
  splitlines_from [] (list_ascii_of_string s).

(** [textwrap._whitespace] *)
Definition is_space (c : ascii) : bool :=
  let n := code c in ((9 <=? n) && (n <=? 13) || (n =? 32))%nat.

Definition munge_whitespace (l : list ascii) : list ascii :=
  map (fun c => if is_space c then " "%char else c) l.

(** Maximal runs of blanks and of other characters. *)
Fixpoint split_chunks (l : list ascii) : list (list ascii) :=
  match l with
  | [] => []
  | c :: l' =>
      match split_chunks l' with
      | (d :: chunk) :: rest =>
          if Bool.eqb (is_space c) (is_space d)
          then (c :: d :: chunk) :: rest
          else [c] :: (d :: chunk) :: rest
      | _ => [[c]]
      end
  end.

Definition blank (chunk : list ascii) : bool := forallb is_space chunk.

Fixpoint take_fitting (width cur_len : nat) (chunks : list (list ascii))
    : list (list ascii) * list (list ascii) :=
  match chunks with
  | chunk :: rest =>
      if (cur_len + length chunk <=? width)%nat then
        let r := take_fitting width (cur_len + length chunk) rest in
        (chunk :: fst r, snd r)
      else ([], chunks)
  | [] => ([], [])
  end.

Definition drop_trailing_blank (cur_line : list (list ascii)) : list (list ascii) :=
  match rev cur_line with
  | chunk :: before => if blank chunk then rev before else cur_line
  | [] => cur_line
  end.

(** [TextWrapper._wrap_chunks]; [started] says that a line was already
    produced. *)
Fixpoint wrap_chunks (fuel width : nat) (chunks : list (list ascii)) (started : bool)
    : list string :=
  match fuel, chunks with
  | O, _ | _, [] => []
  | S fuel, first :: rest =>
      let chunks := if blank first && started then rest else chunks in
      let fit := take_fitting width 0 chunks in
      let cur_line := fst fit in
      let chunks := snd fit in
      let cur_len := length (concat cur_line) in
      let broken :=
        match chunks with
        | long :: rest' =>
            if (width <? length long)%nat then
              let space_left := (width - cur_len)%nat in
              (cur_line ++ [take space_left long], drop space_left long :: rest')
            else (cur_line, chunks)
        | [] => (cur_line, chunks)
        end in
      let cur_line := drop_trailing_blank (fst broken) in
      let chunks := snd broken in
      match cur_line with
      | [] => wrap_chunks fuel width chunks started
      | _ => string_of_list_ascii (concat cur_line) :: wrap_chunks fuel width chunks true
      end
  end.

Definition wrap (text : string) (width : Z) : result (list string) :=
  if width <=? 0 then raise (ValueError "invalid width (must be > 0)")
  else
    let chars := munge_whitespace (list_ascii_of_string text) in
    Ok (wrap_chunks (2 * length chars + 2) (Z.to_nat width) (split_chunks chars) false).

Definition esc : string := String (ascii_of_nat 27) EmptyString.

(** [click.style(text, bold=...)] *)
Definition style (text : string) (bold : bool) : string :=
  if bold then (esc +:+ "[1m" +:+ text +:+ esc +:+ "[0m")%string else text.

(** A stand-in for [khal.terminal.colored]: the line between a mark of
    its colour and a reset. *)
Definition colored (line color : string) (bold_for_light_color : bool) : string :=
  if String.eqb color EmptyString then line
  else ("<" +:+ color +:+ ">" +:+ line +:+ esc +:+ "[0m")%string.

Definition terminal : Terminal :=
  Build_Terminal style colored wrap splitlines (fun day pattern => pattern).

End Text.

(** * Properties *)

(** ** [sorted] *)

Section Sorted.
Context {A : Type} (lt : A -> A -> bool).

Lemma insort_perm (x : A) (l : list A) : Permutation (insort lt x l) (x :: l).
Proof.
  induction l as [|y l IH]; simpl; [reflexivity|].
  destruct (lt y x); [|reflexivity].
  rewrite IH. apply perm_swap.
Qed.

Lemma sorted_perm (l : list A) : Permutation (sorted lt l) l.
Proof.
  induction l as [|x l IH]; simpl; [reflexivity|].
  rewrite insort_perm. now constructor.
Qed.

Context `{!StrictWeakOrder lt}.

Lemma insort_sorted (x : A) (l : list A) :
  StronglySorted (le_of lt) l -> StronglySorted (le_of lt) (insort lt x l).
Proof.
  induction l as [|y l IH]; simpl; intros S.
  - repeat constructor.
  - apply StronglySorted_inv in S as [S Hy].
    destruct (lt y x) eqn:E.
    + constructor; [auto|].
      rewrite Forall_forall. intros z Hz.
      rewrite insort_perm in Hz.
      apply elem_of_cons in Hz as [->|Hz].
      * apply lt_asym, E.
      * rewrite Forall_forall in Hy. auto.
    + constructor; [constructor; auto|].
      constructor; [exact E|].
      rewrite Forall_forall in Hy |- *. intros z Hz.
      eapply le_trans; [exact E|auto].
Qed.

Lemma sorted_sorted (l : list A) : StronglySorted (le_of lt) (sorted lt l).
Proof.
  induction l as [|x l IH]; simpl; [constructor|].
  now apply insort_sorted.
Qed.

Lemma sorted_later_not_smaller (l1 l2 l3 : list A) (x y : A) :
  StronglySorted (le_of lt) (l1 ++ x :: l2 ++ y :: l3) -> le_of lt x y.
Proof.
  induction l1 as [|z l1 IH]; simpl; intros S.
  - apply StronglySorted_inv in S as [_ Hx].
    rewrite Forall_forall in Hx. apply Hx.
    apply elem_of_app. right. left.
  - apply StronglySorted_inv in S as [S _]. auto.
Qed.

(** A list that is already in order is returned as it is. *)
Lemma sorted_id (l : list A) : StronglySorted (le_of lt) l -> sorted lt l = l.
Proof.
  induction 1 as [|x l S IH Hx]; simpl; [reflexivity|].
  rewrite IH. destruct l as [|y l]; simpl; [reflexivity|].
  apply Forall_inv in Hx. unfold le_of in Hx. now rewrite Hx.
Qed.

End Sorted.

(** ** The sample calendar obeys the canonical order *)

Lemma sample_lt_spec (a b : Sample.event) :
  Sample.lt a b = true <->
  start_wall (Sample.ev_start a) < start_wall (Sample.ev_start b)
  \/ (start_wall (Sample.ev_start a) = start_wall (Sample.ev_start b)
      /\ Sample.ev_uid a < Sample.ev_uid b).
Proof.
  unfold Sample.lt. rewrite orb_true_iff, andb_true_iff, !Z.ltb_lt, Z.eqb_eq. tauto.
Qed.

Lemma sample_le_spec (a b : Sample.event) :
  le_of Sample.lt a b <->
  start_wall (Sample.ev_start a) < start_wall (Sample.ev_start b)
  \/ (start_wall (Sample.ev_start a) = start_wall (Sample.ev_start b)
      /\ Sample.ev_uid a <= Sample.ev_uid b).
Proof.
  unfold le_of. rewrite <- not_true_iff_false, sample_lt_spec. lia.
Qed.

#[global] Instance sample_canonical : CanonicalOrder Sample.event.
Proof.
  split; [split|].
  - intros a b Hab. change (le_of Sample.lt a b).
    apply sample_lt_spec in Hab. apply sample_le_spec. lia.
  - intros a b c Hab Hbc. simpl in *.
    apply sample_le_spec in Hab, Hbc. apply sample_le_spec. lia.
  - intros a b Hab. apply sample_lt_spec. now left.
Qed.

(** ** The merge step of [get_list] *)

Section Merge.
Context {Event : Type} `{EventClass Event}.

Lemma merge_events_perm (collection : CalendarCollection Event)
    (start_local end_local start end_ : datetime) :
  Permutation (merge_events collection start_local end_local start end_)
    (get_localized collection start_local end_local
     ++ get_floating collection start end_).
Proof.
  unfold merge_events. now rewrite !sorted_perm.
Qed.

End Merge.

(** C1. Whatever the zoned query ([get_localized]) and the floating query
    ([get_floating]) return, the merge step of [get_list] returns the events
    of both, each once, in one sequence that is non-decreasing in the
    canonical event order: no event is followed, at any distance, by one
    that is smaller.  An event with the later start never comes before one
    with the earlier start, whichever query either came from; in particular
    a floating event that starts at 08:00 comes before a zoned event that
    starts at 09:00 on the same day. *)
Theorem merge_events_ordered {Event : Type} `{EventClass Event}
    (canonical : CanonicalOrder Event)
    (collection : CalendarCollection Event)
    (start_local end_local start end_ : datetime) :
  let merged := merge_events collection start_local end_local start end_ in
  StronglySorted (le_of event_lt) merged
  /\ Permutation merged
       (get_localized collection start_local end_local
        ++ get_floating collection start end_)
  /\ (forall (earlier later : Event) (l1 l2 l3 : list Event),
        start_wall (event_start earlier) < start_wall (event_start later) ->
        merged <> l1 ++ later :: l2 ++ earlier :: l3)
  /\ forall (floating zoned : Event) (day : Z) (zone : string),
       event_start floating
         = ADatetime {| wall := day * DAY + 28800000000; tzinfo := None |} ->
       event_start zoned
         = ADatetime {| wall := day * DAY + 32400000000; tzinfo := Some zone |} ->
       get_localized collection start_local end_local = [zoned] ->
       get_floating collection start end_ = [floating] ->
       merged = [floating; zoned].
Proof.
  intros merged.
  assert (Hsorted : StronglySorted (le_of event_lt) merged)
    by (apply sorted_sorted; apply canonical_order).
  split; [exact Hsorted|]. split; [apply merge_events_perm|]. split.
  - intros earlier later l1 l2 l3 Hlt Hm. rewrite Hm in Hsorted.
    pose proof (sorted_later_not_smaller _ _ _ _ _ _ Hsorted) as Hle.
    unfold le_of in Hle. rewrite (canonical_start _ _ Hlt) in Hle. discriminate.
  - intros f z day zone Hf Hz Hl Hfl. subst merged. unfold merge_events.
    rewrite Hl, Hfl. simpl.
    assert (Hlt : event_lt f z = true).
    { apply canonical_start. rewrite Hf, Hz. simpl. lia. }
    now rewrite Hlt.
Qed.

(** The sample calendar: the zoned stand-up at 09:00 and the floating
    breakfast at 08:00, queried over the whole day. *)
Lemma merge_events_ordered_witness :
  merge_events (Sample.collection [Sample.zoned_9] [Sample.floating_8])
    (Sample.zoned Sample.june12 0 0) (Sample.zoned (Sample.june12 + 1) 0 0)
    (Sample.naive Sample.june12 0 0) (Sample.naive (Sample.june12 + 1) 0 0)
  = [Sample.floating_8; Sample.zoned_9].
Proof.
  apply (proj2 (proj2 (proj2 (merge_events_ordered sample_canonical
           (Sample.collection [Sample.zoned_9] [Sample.floating_8])
           (Sample.zoned Sample.june12 0 0) (Sample.zoned (Sample.june12 + 1) 0 0)
           (Sample.naive Sample.june12 0 0) (Sample.naive (Sample.june12 + 1) 0 0))))
         Sample.floating_8 Sample.zoned_9 Sample.june12 "Europe/Berlin"%string);
    reflexivity.
Defined.

(** ** The result monad *)

Section Monad.
Context {A B S : Type}.

Lemma foldM_ext (f g : S -> A -> result S) (l : list A) (s : S) :
  (forall s x, f s x = g s x) -> foldM f l s = foldM g l s.
Proof.
  intros E. revert s. induction l as [|x l IH]; intros s; simpl; [reflexivity|].
  rewrite E. destruct (g s x); simpl; auto.
Qed.

(** A loop that appends the lines of each item is the concatenation of
    the blocks, and stops at the first item that aborts. *)
Lemma foldM_append (f : A -> result (list B)) (l : list A) (acc : list B) :
  foldM (fun acc x => (lines <- f x ;; Ok (acc ++ lines))%result) l acc
  = (blocks <- mapM f l ;; Ok (acc ++ concat blocks))%result.
Proof.
  revert acc. induction l as [|x l IH]; intros acc; simpl.
  - now rewrite app_nil_r.
  - destruct (f x) as [lines|e]; simpl; [|reflexivity].
    rewrite IH. destruct (mapM f l) as [blocks|e]; simpl; [|reflexivity].
    now rewrite app_assoc.
Qed.

Lemma mapM_abort_first (f : A -> result B) (l1 l2 : list A) (x : A) (e : abort) :
  (forall y, y ∈ l1 -> exists b, f y = Ok b) ->
  f x = Abort e ->
  mapM f (l1 ++ x :: l2) = Abort e.
Proof.
  intros Hl1 Hx. induction l1 as [|y l1 IH]; simpl.
  - now rewrite Hx.
  - destruct (Hl1 y) as [b ->]; [left|]. simpl.
    rewrite IH; [reflexivity|]. intros z Hz. apply Hl1. now right.
Qed.

Lemma mapM_abort (f : A -> result B) (l : list A) (x : A) (e : abort) :
  x ∈ l -> f x = Abort e -> exists e', mapM f l = Abort e'.
Proof.
  intros Hin Hx. induction l as [|y l IH]; [now apply elem_of_nil in Hin|].
  simpl. destruct (f y) as [b|e'] eqn:E; simpl; [|eauto].
  apply elem_of_cons in Hin as [->|Hin]; [congruence|].
  destruct (IH Hin) as [e' ->]. simpl. eauto.
Qed.

End Monad.

(** ** [get_list] *)

Section GetList.
Context {Event : Type} `{EventClass Event} `{Aux} `{Terminal}.

Lemma localize_wall (locale : option Locale) (dt : datetime) :
  wall (localize locale dt) = wall dt.
Proof. unfold localize. now destruct locale, (tzinfo dt). Qed.

Lemma datetime_fillin_wall (t : temporal) (locale : option Locale)
    (day : option datetime) :
  wall (datetime_fillin (Some t) false locale day) = start_wall t.
Proof.
  unfold datetime_fillin. destruct t; rewrite localize_wall; simpl;
    unfold time_min; lia.
Qed.

Lemma naive_start_wall (locale : Locale) (event : Event) :
  wall (naive_start locale event) = start_wall (event_start event).
Proof. unfold naive_start. simpl. apply datetime_fillin_wall. Qed.

Lemma render_event_lines (locale : Locale) (format : option string)
    (notstarted : bool) (env : gmap string string) (width : option Z)
    (start end_ : datetime) (event_list : list string) (event : Event) :
  render_event locale format notstarted env width start end_ event_list event
  = (lines <- (if event_kept locale notstarted start event
               then event_lines format env width start end_ event
               else Ok []) ;;
     Ok (event_list ++ lines))%result.
Proof.
  unfold render_event, event_kept, event_lines.
  destruct (negb _); simpl; [|now rewrite app_nil_r].
  destruct (try_except _ _) as [s|e]; simpl; [|reflexivity].
  destruct (width_given width); [|reflexivity].
  now destruct (textwrap_wrap _ _).
Qed.

Lemma mapM_kept {X Y : Type} (keep : X -> bool) (f : X -> result (list Y))
    (l : list X) :
  (blocks <- mapM (fun x => if keep x then f x else Ok []) l ;; Ok (concat blocks))%result
  = (blocks <- mapM f (List.filter keep l) ;; Ok (concat blocks))%result.
Proof.
  induction l as [|x l IH]; simpl; [reflexivity|].
  destruct (keep x); simpl.
  - destruct (f x) as [b|e]; simpl; [|reflexivity].
    destruct (mapM _ l) as [bs|e]; simpl in *.
    + destruct (mapM f (List.filter keep l)); simpl in *; congruence.
    + destruct (mapM f (List.filter keep l)); simpl in *; congruence.
  - destruct (mapM _ l) as [bs|e]; simpl in *; exact IH.
Qed.

(** [get_list] renders, in the merged order, the events that pass the
    filter. *)
Lemma get_list_render (collection : CalendarCollection Event) (locale : Locale)
    (start end_ : temporal) (format : option string) (notstarted : bool)
    (env : option (gmap string string)) (width : option Z) :
  let start_local := datetime_fillin (Some start) false (Some locale) None in
  let end_local := datetime_fillin (Some end_) true (Some locale) None in
  let range_start := replace_tzinfo_none start_local in
  let range_end := replace_tzinfo_none end_local in
  get_list collection locale start end_ format notstarted env width
  = render_events format (default ∅ env) width range_start range_end
      (List.filter (event_kept locale notstarted range_start)
         (merge_events collection start_local end_local range_start range_end)).
Proof.
  intros. unfold get_list, render_events.
  fold start_local end_local. fold range_start range_end.
  rewrite <- mapM_kept.
  rewrite (foldM_ext _ _ _ _
             (render_event_lines locale format notstarted (default ∅ env) width
                range_start range_end)).
  apply (foldM_append _ _ []).
Qed.

End GetList.

Lemma filter_all {X : Type} (l : list X) : List.filter (fun _ => true) l = l.
Proof. induction l; simpl; congruence. Qed.

(** C3. With [notstarted] set, [get_list] renders the merged sequence
    without the events whose zone-naive start is strictly before the start
    of the range, and with every other event, in the merged order: an
    event stays exactly when it starts at or after the start of the range.
    With [notstarted] unset no event of the merged sequence is dropped.
    The zone-naive start the guard of line 286 compares is the start of
    the event itself, a bare date taken at its midnight, with the zone
    taken off; the start of the range is filled in the same way. *)
Theorem notstarted_filter {Event : Type} `{EventClass Event} `{Aux} `{Terminal}
    (collection : CalendarCollection Event) (locale : Locale)
    (start end_ : temporal) (format : option string)
    (env : option (gmap string string)) (width : option Z) :
  let start_local := datetime_fillin (Some start) false (Some locale) None in
  let end_local := datetime_fillin (Some end_) true (Some locale) None in
  let range_start := replace_tzinfo_none start_local in
  let range_end := replace_tzinfo_none end_local in
  let merged := merge_events collection start_local end_local range_start range_end in
  let render := render_events format (default ∅ env) width range_start range_end in
  let started_before event := start_wall (event_start event) <? start_wall start in
  get_list collection locale start end_ format true env width
    = render (List.filter (fun event => negb (started_before event)) merged)
  /\ get_list collection locale start end_ format false env width = render merged
  /\ (forall event,
        In event (List.filter (fun event => negb (started_before event)) merged)
        <-> In event merged /\ start_wall start <= start_wall (event_start event))
  /\ (forall event,
        naive_start locale event
        = {| wall := start_wall (event_start event); tzinfo := None |}
        /\ dt_ltb (naive_start locale event) range_start = started_before event)
  /\ range_start = {| wall := start_wall start; tzinfo := None |}.
Proof.
  intros.
  assert (Hrange : wall range_start = start_wall start)
    by (subst range_start start_local; simpl; apply datetime_fillin_wall).
  assert (Hguard : forall event,
            dt_ltb (naive_start locale event) range_start = started_before event).
  { intros event. unfold dt_ltb. subst started_before. cbv beta.
    now rewrite naive_start_wall, Hrange. }
  split; [|split; [|split; [|split]]].
  - rewrite get_list_render. fold start_local end_local range_start range_end merged.
    unfold render. f_equal. apply filter_ext. intros event.
    unfold event_kept. cbn [andb]. now rewrite Hguard.
  - rewrite get_list_render. fold start_local end_local range_start range_end.
    unfold render. f_equal. apply filter_all.
  - intros event. rewrite filter_In. subst started_before. cbv beta.
    rewrite negb_true_iff, Z.ltb_ge. reflexivity.
  - intros event. split; [|apply Hguard].
    unfold naive_start, replace_tzinfo_none. f_equal. apply datetime_fillin_wall.
  - unfold range_start, replace_tzinfo_none. f_equal. exact Hrange.
Qed.

(** ** The day-by-day loop of [get_list_from_str] *)

Section DayLoop.
Context `{Aux}.

Lemma date_bounds (dt : datetime) :
  date dt * DAY <= wall dt < date dt * DAY + DAY.
Proof.
  unfold date, DAY. pose proof (Z.div_mod (wall dt) 86400000000).
  pose proof (Z.mod_pos_bound (wall dt) 86400000000). lia.
Qed.

Lemma date_unique (dt : datetime) (d : Z) :
  d * DAY <= wall dt < d * DAY + DAY -> date dt = d.
Proof. pose proof (date_bounds dt). unfold DAY in *. lia. Qed.

Lemma date_mono (a b : datetime) : wall a <= wall b -> date a <= date b.
Proof.
  pose proof (date_bounds a). pose proof (date_bounds b). unfold DAY in *. lia.
Qed.

Lemma day_end_of_wall (start end_ : datetime) :
  wall (day_end_of start end_)
  = if date start =? date end_ then wall end_ else date start * DAY + time_max.
Proof. unfold day_end_of. now destruct (date start =? date end_). Qed.

Lemma next_day_start_wall (start : datetime) :
  wall (next_day_start start) = (date start + 1) * DAY.
Proof. unfold next_day_start. simpl. unfold time_min. lia. Qed.

Lemma next_day_start_date (start : datetime) :
  date (next_day_start start) = date start + 1.
Proof. apply date_unique. rewrite next_day_start_wall. unfold DAY. lia. Qed.

Lemma dt_ltb_lt (a b : datetime) : dt_ltb a b = true <-> wall a < wall b.
Proof. apply Z.ltb_lt. Qed.

Lemma loop_fuel_next (start end_ : datetime) :
  dt_ltb start end_ = true ->
  loop_fuel start end_ = S (loop_fuel (next_day_start start) end_).
Proof.
  intros Hlt. apply dt_ltb_lt in Hlt.
  assert (date start <= date end_) by (apply date_mono; lia).
  unfold loop_fuel. rewrite next_day_start_date. lia.
Qed.

(** The loop equation: the fuel never runs out. *)
Lemma partition_unfold (start end_ : datetime) :
  partition start end_
  = if dt_ltb start end_
    then (start, day_end_of start end_) :: partition (next_day_start start) end_
    else [].
Proof.
  unfold partition. destruct (dt_ltb start end_) eqn:Hlt.
  - rewrite (loop_fuel_next _ _ Hlt). simpl. now rewrite Hlt.
  - destruct (loop_fuel start end_); simpl; [reflexivity|now rewrite Hlt].
Qed.

(** Induction along the loop. *)
Lemma partition_ind (P : datetime -> datetime -> list (datetime * datetime) -> Prop) :
  (forall start end_, dt_ltb start end_ = false -> P start end_ []) ->
  (forall start end_ rest,
      dt_ltb start end_ = true ->
      P (next_day_start start) end_ rest ->
      P start end_ ((start, day_end_of start end_) :: rest)) ->
  forall start end_, P start end_ (partition start end_).
Proof.
  intros Hstop Hstep start end_.
  remember (loop_fuel start end_) as n eqn:Hn.
  revert start Hn. induction n as [|n IH]; intros start Hn.
  - rewrite partition_unfold. destruct (dt_ltb start end_) eqn:Hlt.
    + rewrite (loop_fuel_next _ _ Hlt) in Hn. discriminate.
    + now apply Hstop.
  - rewrite partition_unfold. destruct (dt_ltb start end_) eqn:Hlt.
    + apply Hstep; [exact Hlt|]. apply IH.
      rewrite (loop_fuel_next _ _ Hlt) in Hn. now injection Hn.
    + now apply Hstop.
Qed.

End DayLoop.

Section Partition.
Context `{Aux}.

Lemma covers_nil (t : Z) : ~ covers [] t.
Proof. intros (w & [] & _). Qed.

Lemma covers_cons (w : datetime * datetime) (windows : list (datetime * datetime))
    (t : Z) :
  covers (w :: windows) t <-> wall (fst w) <= t < wall (snd w) \/ covers windows t.
Proof.
  unfold covers. split.
  - intros (w' & [<-|Hin] & Ht); [now left|right; eauto].
  - intros [Ht|(w' & Hin & Ht)]; [exists w|exists w']; simpl; auto.
Qed.

Lemma partition_has_shape (start end_ : datetime) :
  partition_shape start end_ (partition start end_).
Proof.
  apply (partition_ind partition_shape); clear start end_.
  - intros start end_ Hlt. apply Z.ltb_ge in Hlt.
    split; [|split; [|split; [|split; [|split]]]];
      try constructor; try discriminate.
    + intros Hc. now apply covers_nil in Hc.
    + lia.
  - intros start end_ rest Hlt (Hsorted & Hin & Hcov & Hhead & Hmid & Hend).
    apply dt_ltb_lt in Hlt.
    pose proof (date_bounds start) as Bs. pose proof (date_bounds end_) as Be.
    pose proof (date_mono start end_ ltac:(lia)) as Hd.
    pose proof (day_end_of_wall start end_) as Hde.
    pose proof (next_day_start_wall start) as Hn.
    assert (Hde' : wall start <= wall (day_end_of start end_) <= wall end_
                   /\ wall (day_end_of start end_) < wall (next_day_start start)).
    { rewrite Hde, Hn. destruct (Z.eqb_spec (date start) (date end_)) as [E|E];
        unfold time_max, DAY in *; clear - Hlt Bs Be Hd E; lia. }
    split; [|split; [|split; [|split; [|split]]]].
    + constructor; [exact Hsorted|].
      eapply Forall_impl; [exact Hin|]. intros w Hw. cbn beta iota delta [fst snd] in *. lia.
    + constructor; [cbn [fst snd]; lia|].
      eapply Forall_impl; [exact Hin|]. intros w Hw. cbn beta iota delta [fst snd] in *. lia.
    + intros t. rewrite covers_cons, Hcov. cbn [fst snd]. rewrite Hde, Hn.
      clear - Hlt Bs Be Hd.
      destruct (Z.eqb_spec (date start) (date end_)) as [E|E];
        unfold time_max, DAY in *;
        pose proof (Z.div_mod t 86400000000 ltac:(lia)) as Et;
        pose proof (Z.mod_pos_bound t 86400000000 ltac:(lia)) as Bt;
        set (q := t / 86400000000) in *; set (r := t mod 86400000000) in *;
        clearbody q r; lia.
    + now intros w [= <-].
    + simpl. destruct rest as [|w rest]; [constructor|].
      constructor; [|exact Hmid].
      rewrite (Hhead w eq_refl), Hn. apply Z.mod_mul. unfold DAY. lia.
    + constructor; [exact Hde|exact Hend].
Qed.

End Partition.

Section ListColumn.
Context {Event : Type} `{EventClass Event} `{Aux} `{Terminal}.

Lemma day_loop_windows (fuel : nat) (collection : CalendarCollection Event)
    (locale : Locale) (format : option string) (notstarted : bool)
    (env : gmap string string) (width : option Z) (start end_ : datetime)
    (event_column : list string) :
  day_loop fuel collection locale format notstarted env width start end_ event_column
  = foldM (fun column w =>
             (lines <- window_lines collection locale format notstarted env width w ;;
              Ok (column ++ lines))%result)
      (day_windows fuel start end_) event_column.
Proof.
  revert start event_column. induction fuel as [|fuel IH]; intros start column; simpl.
  - reflexivity.
  - destruct (dt_ltb start end_); simpl; [|reflexivity].
    unfold window_lines at 1. simpl.
    destruct (get_list _ _ _ _ _ _ _ _) as [lines|e]; simpl; [apply IH|reflexivity].
Qed.

(** The loop equation of the [while] of lines 235-241. *)
Lemma day_loop_unfold (collection : CalendarCollection Event)
    (locale : Locale) (format : option string) (notstarted : bool)
    (env : gmap string string) (width : option Z) (start end_ : datetime)
    (event_column : list string) :
  day_loop (loop_fuel start end_) collection locale format notstarted env width
    start end_ event_column
  = if dt_ltb start end_ then
      (lines <- get_list collection locale (ADatetime start)
                  (ADatetime (day_end_of start end_)) format notstarted (Some env) width ;;
       day_loop (loop_fuel (next_day_start start) end_) collection locale format
         notstarted env width (next_day_start start) end_ (event_column ++ lines))%result
    else Ok event_column.
Proof.
  destruct (dt_ltb start end_) eqn:Hlt.
  - rewrite (loop_fuel_next _ _ Hlt). simpl. now rewrite Hlt.
  - destruct (loop_fuel start end_); simpl; [reflexivity|now rewrite Hlt].
Qed.

(** With [once] unset the column is the concatenation, in order, of what
    [get_list] returns on each sub-range; the first sub-range on which
    [get_list] aborts aborts the loop. *)
Lemma list_column_partition (collection : CalendarCollection Event)
    (locale : Locale) (format : option string) (notstarted : bool)
    (env : option (gmap string string)) (width : option Z) (start end_ : datetime) :
  list_column collection locale format notstarted false env width start end_
  = (blocks <- mapM (window_lines collection locale format notstarted
                       (default ∅ env) width)
                 (partition start end_) ;;
     Ok (concat blocks))%result.
Proof.
  unfold list_column. simpl. rewrite day_loop_windows.
  apply (foldM_append _ _ []).
Qed.

End ListColumn.

(** C2, as amended. With [once] unset, [get_list_from_str] calls [get_list]
    on a finite sequence of sub-ranges, in order.  The sub-ranges lie
    inside the range and do not overlap: each ends before the next starts.
    The first starts at [start] and every later one at a local midnight; a
    sub-range on the day of [end] ends at [end], any other at 23:59:59.999999
    of its day, one microsecond before the next starts.  Together they hold
    the instants of [[start, end)] except the last microsecond of each day. *)
Theorem partition_day_by_day {Event : Type} `{EventClass Event} `{Aux} `{Terminal}
    (collection : CalendarCollection Event) (locale : Locale)
    (format : option string) (notstarted : bool)
    (env : option (gmap string string)) (width : option Z) (start end_ : datetime) :
  let windows := partition start end_ in
  list_column collection locale format notstarted false env width start end_
    = (blocks <- mapM (window_lines collection locale format notstarted
                         (default ∅ env) width) windows ;;
       Ok (concat blocks))%result
  /\ StronglySorted (fun w1 w2 => wall (snd w1) < wall (fst w2)) windows
  /\ Forall (fun w => wall start <= wall (fst w) <= wall (snd w)
                      /\ wall (snd w) <= wall end_) windows
  /\ (forall t, covers windows t
                <-> wall start <= t < wall end_ /\ t mod DAY <> time_max)
  /\ (forall w, head windows = Some w -> fst w = start)
  /\ Forall (fun w => wall (fst w) mod DAY = 0) (tail windows)
  /\ Forall (fun w => wall (snd w)
                      = if date (fst w) =? date end_ then wall end_
                        else date (fst w) * DAY + time_max) windows.
Proof.
  intros windows. split.
  - apply list_column_partition.
  - apply partition_has_shape.
Qed.

(** From 08:30 to 10:00 the next day: the first sub-range starts at 08:30. *)
Lemma partition_day_by_day_witness :
  let aux := Sample.aux Sample.june12 (Ok (None, None)) in
  let start := Sample.naive Sample.june12 8 30 in
  let end_ := Sample.naive (Sample.june12 + 1) 10 0 in
  head (@partition aux start end_) = Some (start, combine Sample.june12 time_max)
  /\ fst (start, combine Sample.june12 time_max) = start.
Proof.
  intros aux start end_.
  assert (Hhead : head (@partition aux start end_)
                  = Some (start, combine Sample.june12 time_max))
    by (vm_compute; reflexivity).
  split; [exact Hhead|].
  exact (proj1 (proj2 (proj2 (proj2 (proj2
           (@partition_day_by_day _ _ aux Text.terminal
              (Sample.collection [] []) Sample.locale None false None None
              start end_)))))
         (start, combine Sample.june12 time_max) Hhead).
Defined.

(** A range inside one day is one sub-range, the range itself. *)
Lemma partition_same_day `{Aux} (start end_ : datetime) :
  wall start < wall end_ -> date start = date end_ ->
  partition start end_ = [(start, end_)].
Proof.
  intros Hlt Hd. rewrite partition_unfold.
  rewrite (proj2 (dt_ltb_lt start end_) Hlt).
  unfold day_end_of. rewrite (proj2 (Z.eqb_eq _ _) Hd).
  rewrite partition_unfold.
  replace (dt_ltb (next_day_start start) end_) with false; [reflexivity|].
  symmetry. apply Z.ltb_ge. rewrite next_day_start_wall, Hd.
  pose proof (date_bounds end_). unfold DAY in *. lia.
Qed.

(** The sub-ranges of three ranges on the sample clock: from 08:30 to noon,
    from 08:30 to 10:00 the next day, and an empty range. *)
Example partition_samples :
  let aux := Sample.aux Sample.june12 (Ok (None, None)) in
  let day := Sample.june12 in
  @partition aux (Sample.naive day 8 30) (Sample.naive day 12 0)
    = [(Sample.naive day 8 30, Sample.naive day 12 0)]
  /\ @partition aux (Sample.naive day 8 30) (Sample.naive (day + 1) 10 0)
     = [(Sample.naive day 8 30, combine day time_max);
        (Sample.naive (day + 1) 0 0, Sample.naive (day + 1) 10 0)]
  /\ @partition aux (Sample.naive day 12 0) (Sample.naive day 12 0) = [].
Proof. repeat split; vm_compute; reflexivity. Qed.

(** C2 as stated fails: over the two days from 2024-06-12 00:00 the loop
    visits two sub-ranges that end at 23:59:59.999999, and the instant
    2024-06-12 23:59:59.999999 of the range lies in neither. *)
Lemma partition_leaves_gaps :
  let aux := Sample.aux Sample.june12 (Ok (None, None)) in
  let start := Sample.naive Sample.june12 0 0 in
  let end_ := Sample.naive (Sample.june12 + 2) 0 0 in
  wall start <= wall end_
  /\ @partition aux start end_
     = [(start, combine Sample.june12 time_max);
        (Sample.naive (Sample.june12 + 1) 0 0, combine (Sample.june12 + 1) time_max)]
  /\ ~ (forall t, wall start <= t < wall end_ <-> covers (@partition aux start end_) t).
Proof.
  intros aux start end_. split; [|split].
  - vm_compute. discriminate.
  - vm_compute. reflexivity.
  - intros Hall.
    destruct (proj1 (Hall (wall (combine Sample.june12 time_max)))) as (w & Hin & Hw).
    + vm_compute. split; [discriminate|reflexivity].
    + assert (Hp : @partition aux start end_
                   = [(start, combine Sample.june12 time_max);
                      (Sample.naive (Sample.june12 + 1) 0 0,
                       combine (Sample.june12 + 1) time_max)])
        by (vm_compute; reflexivity).
      rewrite Hp in Hin. destruct Hin as [<-|[<-|[]]]; vm_compute in Hw;
        destruct Hw as [Hw1 Hw2]; first [now apply Hw1 | discriminate Hw2].
Qed.

(** ** The range [get_list_from_str] resolves *)

Section ListRange.
Context `{Aux}.

Lemma date_combine (d t : Z) : 0 <= t < DAY -> date (combine d t) = d.
Proof. intros Ht. apply date_unique. simpl. lia. Qed.

Lemma list_range_empty_none (locale : Locale) :
  list_range locale [] None = Ok (combine today time_min, combine today time_max).
Proof.
  unfold list_range. simpl. unfold datetime_fillin. simpl.
  rewrite date_combine; [reflexivity|]. unfold time_min, DAY. lia.
Qed.

Lemma list_range_nonempty (locale : Locale) (daterange : list string)
    (default_timedelta : option string) :
  daterange <> [] ->
  list_range locale daterange default_timedelta
  = try_except
      (range <- guessrangefstr daterange locale default_timedelta ;;
       match range with
       | (Some start, Some end_) => Ok (start, end_)
       | _ => raise (InvalidDate (invalid_range_message daterange))
       end)%result
      (fun e => match e with InvalidDate _ => Some (fatal e) | _ => None end).
Proof. destruct daterange; [congruence|reflexivity]. Qed.

End ListRange.

(** C5, as amended. Without tokens and without a default span the range
    runs from the start of today to the end of today, 23:59:59.999999 local
    time, which is one microsecond before the start of tomorrow.  With a
    default span that parses to a duration the range runs from the start of
    today to the start of today plus that duration; a span that does not
    parse is fatal. *)
Theorem list_range_default `{Aux} (locale : Locale) :
  let start := combine today time_min in
  list_range locale [] None = Ok (start, combine today time_max)
  /\ wall (combine today time_max) = wall (combine (today + 1) time_min) - 1
  /\ forall default_timedelta : string,
       list_range locale [] (Some default_timedelta)
       = match guesstimedeltafstr default_timedelta with
         | Ok delta => Ok (start, dt_add start delta)
         | Abort (Uncaught (ValueError msg)) => fatal (ValueError msg)
         | Abort b => Abort b
         end.
Proof.
  intros start. split; [|split].
  - apply list_range_empty_none.
  - simpl. unfold time_max, time_min, DAY. lia.
  - intros td. unfold list_range. simpl.
    destruct (guesstimedeltafstr td) as [delta|[e s|[]]]; reflexivity.
Qed.

(** C5 as stated fails: on 2024-06-12 the range resolved for no tokens and
    no default span ends at 2024-06-12 23:59:59.999999, not at the start of
    2024-06-13. *)
Lemma list_range_default_ends_today :
  let aux := Sample.aux Sample.june12 (Ok (None, None)) in
  @list_range aux Sample.locale [] None
  = Ok (combine Sample.june12 time_min, combine Sample.june12 time_max)
  /\ @list_range aux Sample.locale [] None
     <> Ok (combine Sample.june12 time_min, combine (Sample.june12 + 1) time_min).
Proof.
  split; [vm_compute; reflexivity|].
  vm_compute. intros [=].
Qed.

(** C4, as amended. For a non-empty token list the range is the pair the
    range parser returns when neither end is null, taken as it is: the two
    ends are not compared.  A null end is fatal with an [InvalidDate] that
    carries the joined tokens, an [InvalidDate] of the parser is fatal, and
    any other failure of the parser leaves the call as it is. *)
Theorem list_range_parsed `{Aux} (locale : Locale) (daterange : list string)
    (default_timedelta : option string) :
  daterange <> [] ->
  list_range locale daterange default_timedelta
  = match guessrangefstr daterange locale default_timedelta with
    | Ok (Some start, Some end_) => Ok (start, end_)
    | Ok _ => fatal (InvalidDate (invalid_range_message daterange))
    | Abort (Uncaught (InvalidDate msg)) => fatal (InvalidDate msg)
    | Abort b => Abort b
    end.
Proof.
  intros Hne. rewrite list_range_nonempty by exact Hne.
  destruct (guessrangefstr daterange locale default_timedelta)
    as [[[start|] [end_|]]|[e s|[]]]; reflexivity.
Qed.

(** A parser that finds no end: the call is fatal, and the message names
    the tokens. *)
Lemma list_range_parsed_witness :
  @list_range (Sample.aux Sample.june12 (Ok (Some (Sample.naive Sample.june12 9 0), None)))
    Sample.locale ["next"; "moon"]%string None
  = fatal (InvalidDate (invalid_range_message ["next"; "moon"]%string)).
Proof.
  apply (@list_range_parsed
           (Sample.aux Sample.june12 (Ok (Some (Sample.naive Sample.june12 9 0), None)))
           Sample.locale ["next"; "moon"]%string None).
  discriminate.
Defined.

(** C4 as stated fails: when the parser answers 09:00 for both ends, the
    range is returned with its start equal to its end. *)
Lemma list_range_equal_ends :
  let nine := Sample.naive Sample.june12 9 0 in
  let aux := Sample.aux Sample.june12 (Ok (Some nine, Some nine)) in
  let resolved := @list_range aux Sample.locale ["09:00"; "0m"]%string None in
  resolved = Ok (nine, nine)
  /\ ~ ((exists start end_, resolved = Ok (start, end_) /\ wall start < wall end_)
        \/ exists msg, resolved = fatal (InvalidDate msg)).
Proof.
  intros nine aux resolved.
  assert (E : resolved = Ok (nine, nine)) by (vm_compute; reflexivity).
  split; [exact E|].
  rewrite E. intros [(start & end_ & [= <- <-] & Hlt)|(msg & [=])]. lia.
Qed.

(** ** The static values of [env] *)

(** C10. With [once] set, [get_list_from_str] returns the same result
    under any two environment maps: that branch calls [get_list] without
    the [env] argument, so [get_list] renders with its own empty map. *)
Theorem once_ignores_env {Event : Type} `{EventClass Event} `{Aux} `{Terminal}
    (collection : CalendarCollection Event) (locale : Locale)
    (daterange : list string) (notstarted : bool) (format : option string)
    (default_timedelta : option string) (width : option Z)
    (env1 env2 : option (gmap string string)) :
  get_list_from_str collection locale daterange notstarted format true
    default_timedelta env1 width
  = get_list_from_str collection locale daterange notstarted format true
      default_timedelta env2 width
  /\ forall start end_ : datetime,
       list_column collection locale format notstarted true env1 width start end_
       = get_list collection locale (ADatetime start) (ADatetime end_) format
           notstarted None width.
Proof. split; reflexivity. Qed.

(** On the other path the map reaches the templates: with [once] unset the
    calendar name of [env] shows in the lines, and with [once] set the same
    template finds no such key. *)
Example env_reaches_day_loop :
  let aux := Sample.aux Sample.june12 (Ok (None, None)) in
  let collection := Sample.collection [Sample.zoned_9] [Sample.floating_8] in
  let run once env :=
    @get_list_from_str _ _ aux Text.terminal collection Sample.locale []
      false (Some "calendar"%string) once None (Some env) None in
  run false {[ "calendar"%string := "work"%string ]}
    = Ok ["work breakfast"; "work standup"]%string
  /\ run false {[ "calendar"%string := "home"%string ]}
     = Ok ["home breakfast"; "home standup"]%string
  /\ run true {[ "calendar"%string := "work"%string ]} = fatal (KeyError "calendar")
  /\ run true {[ "calendar"%string := "home"%string ]} = fatal (KeyError "calendar").
Proof. repeat split; vm_compute; reflexivity. Qed.

(** ** A template that names a missing field *)

Section KeyError.
Context {Event : Type} `{EventClass Event} `{Aux} `{Terminal}.

Lemma event_lines_key_error (format : option string) (env : gmap string string)
    (width : option Z) (start end_ : datetime) (event : Event) (key : string) :
  event_format event format (start, end_) env = raise (KeyError key) ->
  event_lines format env width start end_ event = fatal (KeyError key).
Proof. unfold event_lines. now intros ->. Qed.

Lemma render_events_abort (format : option string) (env : gmap string string)
    (width : option Z) (start end_ : datetime) (events : list Event)
    (event : Event) (b : abort) :
  In event events ->
  event_lines format env width start end_ event = Abort b ->
  exists b', render_events format env width start end_ events = Abort b'.
Proof.
  intros Hin Hev. unfold render_events.
  destruct (mapM_abort (event_lines format env width start end_) events event b)
    as [b' ->];
    [now apply list_elem_of_In|exact Hev|]. simpl. eauto.
Qed.

Lemma render_events_abort_first (format : option string) (env : gmap string string)
    (width : option Z) (start end_ : datetime) (before after : list Event)
    (event : Event) (b : abort) :
  (forall e, In e before ->
     exists lines, event_lines format env width start end_ e = Ok lines) ->
  event_lines format env width start end_ event = Abort b ->
  render_events format env width start end_ (before ++ event :: after) = Abort b.
Proof.
  intros Hbefore Hev. unfold render_events.
  rewrite (mapM_abort_first (event_lines format env width start end_)
             before after event b); [reflexivity| |exact Hev].
  intros e He. apply Hbefore. now apply list_elem_of_In.
Qed.

(** An abort of [get_list] on the range, or on one of the sub-ranges, is
    an abort of [get_list_from_str]. *)
Lemma get_list_from_str_abort (collection : CalendarCollection Event)
    (locale : Locale) (daterange : list string) (notstarted : bool)
    (format : option string) (once : bool) (default_timedelta : option string)
    (env : option (gmap string string)) (width : option Z)
    (range w : datetime * datetime) (b : abort) :
  list_range locale daterange default_timedelta = Ok range ->
  In w (if once then [range] else partition (fst range) (snd range)) ->
  get_list collection locale (ADatetime (fst w)) (ADatetime (snd w)) format notstarted
    (if once then None else Some (default ∅ env)) width = Abort b ->
  exists b', get_list_from_str collection locale daterange notstarted format once
               default_timedelta env width = Abort b'
             /\ (once = true -> b' = b).
Proof.
  intros Hrange Hw Hb. unfold get_list_from_str. rewrite Hrange. cbn [Py.bind].
  destruct once.
  - destruct Hw as [<-|[]]. unfold list_column. cbn [negb].
    rewrite Hb. cbn [Py.bind]. eauto.
  - rewrite list_column_partition.
    destruct (mapM_abort (window_lines collection locale format notstarted
                            (default ∅ env) width)
                (partition (fst range) (snd range)) w b) as [b' ->];
      [now apply list_elem_of_In|exact Hb|].
    simpl. exists b'. split; [reflexivity|discriminate].
Qed.

End KeyError.

(** C7. If [event.format] raises [KeyError] for an event that [get_list]
    renders, on the whole range ([once] set) or on one of the sub-ranges
    ([once] unset), then [get_list] does not return, and neither does
    [get_list_from_str]: no line is returned and no event is skipped.
    When every event rendered before it went through, [get_list] ends with
    [logging.fatal] of that error and [sys.exit(1)], and with [once] set so
    does [get_list_from_str]. *)
Theorem format_key_error_is_fatal {Event : Type} `{EventClass Event} `{Aux} `{Terminal}
    (collection : CalendarCollection Event) (locale : Locale)
    (daterange : list string) (notstarted : bool) (format : option string)
    (once : bool) (default_timedelta : option string)
    (env : option (gmap string string)) (width : option Z)
    (range w : datetime * datetime) (event : Event) (key : string) :
  let env_passed := if once then None else Some (default ∅ env) in
  let start_local := datetime_fillin (Some (ADatetime (fst w))) false (Some locale) None in
  let end_local := datetime_fillin (Some (ADatetime (snd w))) true (Some locale) None in
  let range_start := replace_tzinfo_none start_local in
  let range_end := replace_tzinfo_none end_local in
  let rendered :=
    List.filter (event_kept locale notstarted range_start)
      (merge_events collection start_local end_local range_start range_end) in
  let call := get_list collection locale (ADatetime (fst w)) (ADatetime (snd w))
                format notstarted env_passed width in
  let whole := get_list_from_str collection locale daterange notstarted format once
                 default_timedelta env width in
  list_range locale daterange default_timedelta = Ok range ->
  In w (if once then [range] else partition (fst range) (snd range)) ->
  In event rendered ->
  event_format event format (range_start, range_end) (default ∅ env_passed)
    = raise (KeyError key) ->
  (exists b, call = Abort b)
  /\ (exists b, whole = Abort b)
  /\ forall before after,
       rendered = before ++ event :: after ->
       (forall e, In e before ->
          exists lines, event_lines format (default ∅ env_passed) width
                          range_start range_end e = Ok lines) ->
       call = fatal (KeyError key)
       /\ (once = true -> whole = fatal (KeyError key)).
Proof.
  intros env_passed start_local end_local range_start range_end rendered call whole
    Hrange Hw Hin Hkey.
  assert (Hcall : call = render_events format (default ∅ env_passed) width
                           range_start range_end rendered)
    by apply get_list_render.
  pose proof (event_lines_key_error format (default ∅ env_passed) width
                range_start range_end event key Hkey) as Hlines.
  assert (Habort : exists b, call = Abort b).
  { rewrite Hcall. eapply render_events_abort; [exact Hin|exact Hlines]. }
  split; [exact Habort|]. split.
  - destruct Habort as [b Hb].
    destruct (get_list_from_str_abort collection locale daterange notstarted format
                once default_timedelta env width range w b Hrange Hw Hb)
      as (b' & Hb' & _).
    eauto.
  - intros before after Hsplit Hbefore.
    assert (Hfatal : call = fatal (KeyError key)).
    { rewrite Hcall, Hsplit. now apply render_events_abort_first. }
    split; [exact Hfatal|]. intros Honce.
    destruct (get_list_from_str_abort collection locale daterange notstarted format
                once default_timedelta env width range w _ Hrange Hw Hfatal)
      as (b' & Hb' & Heq).
    subst whole. rewrite Hb'. now rewrite (Heq Honce).
Qed.

(** The sample calendar, rendered once with a template that names the
    calendar: [env] is not passed on, the key is missing, the call is
    fatal. *)
Lemma format_key_error_is_fatal_witness :
  @get_list_from_str _ _ (Sample.aux Sample.june12 (Ok (None, None))) Text.terminal
    (Sample.collection [Sample.zoned_9] [Sample.floating_8]) Sample.locale []
    false (Some "calendar"%string) true None
    (Some {[ "calendar"%string := "work"%string ]}) None
  = fatal (KeyError "calendar").
Proof.
  refine (proj2 (proj2 (proj2 (@format_key_error_is_fatal _ _
            (Sample.aux Sample.june12 (Ok (None, None))) Text.terminal
            (Sample.collection [Sample.zoned_9] [Sample.floating_8]) Sample.locale []
            false (Some "calendar"%string) true None
            (Some {[ "calendar"%string := "work"%string ]}) None
            (combine Sample.june12 time_min, combine Sample.june12 time_max)
            (combine Sample.june12 time_min, combine Sample.june12 time_max)
            Sample.floating_8 "calendar"%string _ _ _ _))
          [] [Sample.zoned_9] _ _) eq_refl).
  - vm_compute. reflexivity.
  - left. reflexivity.
  - vm_compute. left. reflexivity.
  - vm_compute. reflexivity.
  - vm_compute. reflexivity.
  - intros e [].
Defined.

(** ** The placeholder line *)

Section Placeholder.
Context {Event : Type} `{EventClass Event} `{Aux} `{Terminal}.

Lemma or_placeholder_nonempty (event_column : list string) :
  or_placeholder event_column <> [].
Proof.
  unfold or_placeholder. case_bool_decide; [discriminate|assumption].
Qed.

Lemma agenda_day_no_events (collection : CalendarCollection Event) (width : Z)
    (full bold_for_light_color : bool) (event_column : list string)
    (entry : Z * string) :
  get_events_on collection (fst entry) = [] ->
  agenda_day collection width full false bold_for_light_color event_column entry
  = Ok event_column.
Proof. intros E. unfold agenda_day. rewrite E. reflexivity. Qed.

Lemma agenda_days_no_events (collection : CalendarCollection Event) (width : Z)
    (full bold_for_light_color : bool) (event_column : list string)
    (daylist : list (Z * string)) :
  (forall day, get_events_on collection day = []) ->
  foldM (agenda_day collection width full false bold_for_light_color)
    daylist event_column
  = Ok event_column.
Proof.
  intros E. induction daylist as [|entry daylist IH]; simpl; [reflexivity|].
  rewrite agenda_day_no_events by apply E. exact IH.
Qed.

End Placeholder.

(** C8. Whenever [get_agenda] or [get_list_from_str] returns, it returns
    at least one line, and when the column it built is empty it returns the
    single line [style('No events', bold=True)].  In particular a day
    window in which no day has an event, with [show_all_days] unset, gives
    exactly that line. *)
Theorem no_events_placeholder {Event : Type} `{EventClass Event} `{Aux} `{Terminal}
    (collection : CalendarCollection Event) (locale : Locale) :
  (forall dates firstweekday days width week full show_all_days bold_for_light_color out,
     get_agenda collection locale dates firstweekday days width week full
       show_all_days bold_for_light_color = Ok out ->
     out <> []
     /\ (agenda_column collection locale dates firstweekday days width week full
           show_all_days bold_for_light_color = Ok [] ->
         out = [style "No events" true]))
  /\ (forall daterange notstarted format once default_timedelta env width out,
        get_list_from_str collection locale daterange notstarted format once
          default_timedelta env width = Ok out ->
        out <> []
        /\ (forall range,
              list_range locale daterange default_timedelta = Ok range ->
              list_column collection locale format notstarted once env width
                (fst range) (snd range) = Ok [] ->
              out = [style "No events" true]))
  /\ (forall dates anchors firstweekday days width week full bold_for_light_color,
        agenda_dates locale dates = Ok anchors ->
        (forall day, get_events_on collection day = []) ->
        get_agenda collection locale dates firstweekday days width week full
          false bold_for_light_color = Ok [style "No events" true]).
Proof.
  split; [|split].
  - intros dates firstweekday days width week full show_all_days bold out.
    unfold get_agenda. destruct (agenda_column _ _ _ _ _ _ _ _ _ _) as [column|];
      cbn [Py.bind]; [|discriminate].
    intros [= <-]. split; [apply or_placeholder_nonempty|].
    now intros [= ->].
  - intros daterange notstarted format once td env width out.
    unfold get_list_from_str.
    destruct (list_range locale daterange td) as [range|]; cbn [Py.bind]; [|discriminate].
    destruct (list_column _ _ _ _ _ _ _ _ _) as [column|] eqn:Ecol;
      cbn [Py.bind]; [|discriminate].
    intros [= <-]. split; [apply or_placeholder_nonempty|].
    intros range' [= <-]. rewrite Ecol. now intros [= ->].
  - intros dates anchors firstweekday days width week full bold Hdates Hnone.
    unfold get_agenda, agenda_column. rewrite Hdates. cbn [Py.bind].
    rewrite agenda_days_no_events by exact Hnone. reflexivity.
Qed.

(** An empty calendar, asked for the two days from today. *)
Lemma no_events_placeholder_witness :
  @get_agenda _ _ (Sample.aux Sample.june12 (Ok (None, None))) Text.terminal
    (Sample.collection [] []) Sample.locale None 0 None 45 false false false true
  = Ok [Text.style "No events" true].
Proof.
  apply (proj2 (proj2 (@no_events_placeholder _ _
           (Sample.aux Sample.june12 (Ok (None, None))) Text.terminal
           (Sample.collection [] []) Sample.locale))
         None [Sample.june12] 0 None 45 false false true).
  - reflexivity.
  - intros day. reflexivity.
Defined.

(** ** The week snap of [get_agenda] *)

Lemma week_start_spec (firstweekday d : Z) :
  week_start firstweekday d <= d < week_start firstweekday d + 7
  /\ (weekday (week_start firstweekday d) - firstweekday) mod 7 = 0.
Proof.
  unfold week_start, weekday. split.
  - pose proof (Z.mod_pos_bound ((d + 6) mod 7 - firstweekday) 7). lia.
  - Z.div_mod_to_equations. lia.
Qed.

Lemma week_of_one_anchor (firstweekday days d : Z) :
  agenda_daylist [d] firstweekday days true
  = map (fun one => week_start firstweekday d + one) (range 7).
Proof.
  unfold agenda_daylist.
  change (sorted Z.ltb (map (fun one => week_start firstweekday d + one) (range 7))
          = map (fun one => week_start firstweekday d + one) (range 7)).
  apply (sorted_id Z.ltb).
  set (ws := week_start firstweekday d).
  change (StronglySorted (le_of Z.ltb)
            [ws + 0; ws + 1; ws + 2; ws + 3; ws + 4; ws + 5; ws + 6]).
  repeat (constructor;
          [|repeat (constructor; [unfold le_of; apply Z.ltb_ge; lia|]); constructor]).
  constructor.
Qed.

(** C9. With [week] set, every anchor is moved back by
    [(weekday - firstweekday) mod 7] days, which puts it on the first day of
    its week, and seven days are listed from each moved anchor, whatever
    day count was asked for; the snap comes before the expansion.  With
    [firstweekday = 0] the anchor 2024-06-12, a Wednesday, gives the seven
    days from Monday 2024-06-10 to 2024-06-16. *)
Theorem week_snap (dates : list Z) (firstweekday days : Z) :
  agenda_daylist dates firstweekday days true
    = sorted Z.ltb
        (flat_map (fun one => map (fun d => week_start firstweekday d + one) dates)
           (range 7))
  /\ (forall d,
        week_start firstweekday d = d - (weekday d - firstweekday) mod 7
        /\ week_start firstweekday d <= d < week_start firstweekday d + 7
        /\ (weekday (week_start firstweekday d) - firstweekday) mod 7 = 0
        /\ agenda_daylist [d] firstweekday days true
           = map (fun one => week_start firstweekday d + one) (range 7))
  /\ weekday (ymd2ord 2024 6 12) = 2
  /\ weekday (ymd2ord 2024 6 10) = 0
  /\ agenda_daylist [ymd2ord 2024 6 12] 0 days true
     = map (ymd2ord 2024 6) [10; 11; 12; 13; 14; 15; 16].
Proof.
  split; [|split; [|split; [|split]]].
  - unfold agenda_daylist. f_equal. apply flat_map_ext. intros one.
    rewrite map_map. reflexivity.
  - intros d. split; [reflexivity|]. split; [apply week_start_spec|].
    split; [apply week_start_spec|apply week_of_one_anchor].
  - reflexivity.
  - reflexivity.
  - rewrite week_of_one_anchor. reflexivity.
Qed.

(** ** Wrapping the rendered text *)

Section Wrapping.
Context {Event : Type} `{EventClass Event} `{Aux} `{Terminal}.

Lemma agenda_event_lines_split (event : Event) (day width : Z)
    (full bold_for_light_color : bool) :
  agenda_event_lines event day width full bold_for_light_color
  = split_wrapped_colored (event_relative_to event day full) width
      (event_color event) bold_for_light_color.
Proof.
  unfold agenda_event_lines, split_wrapped_colored.
  rewrite (foldM_append (fun item => textwrap_wrap item width) _ []).
  now destruct (mapM _ _).
Qed.

Lemma width_given_some (width : Z) : width <> 0 -> width_given (Some width) = true.
Proof. intros Hw. simpl. now apply negb_true_iff, Z.eqb_neq. Qed.

Lemma mapM_ext {X Y : Type} (f g : X -> result Y) (l : list X) :
  (forall x, f x = g x) -> mapM f l = mapM g l.
Proof.
  intros E. induction l as [|x l IH]; simpl; [reflexivity|]. now rewrite E, IH.
Qed.

End Wrapping.

(** C6, as amended. In the day-window pipeline ([get_agenda]) the text of
    an event is split on its line breaks, each line is wrapped to the
    width, in order, and each wrapped line is colorized with the colour of
    the event's calendar.  In the range pipeline ([get_list]) with a width
    given, the rendered string of each event goes to the wrapper whole, not
    split on its line breaks, and the wrapped lines are appended as the
    wrapper returns them, not colorized; without a width the rendered
    string is one line. *)
Theorem output_wrapping {Event : Type} `{EventClass Event} `{Aux} `{Terminal}
    (collection : CalendarCollection Event) (locale : Locale)
    (start end_ : temporal) (format : option string) (notstarted : bool)
    (env : option (gmap string string)) :
  let start_local := datetime_fillin (Some start) false (Some locale) None in
  let end_local := datetime_fillin (Some end_) true (Some locale) None in
  let range_start := replace_tzinfo_none start_local in
  let range_end := replace_tzinfo_none end_local in
  let rendered :=
    List.filter (event_kept locale notstarted range_start)
      (merge_events collection start_local end_local range_start range_end) in
  let event_string event :=
    try_except (event_format event format (range_start, range_end) (default ∅ env))
      (fun e => match e with KeyError _ => Some (fatal e) | _ => None end) in
  (forall event day width full bold_for_light_color,
     agenda_event_lines event day width full bold_for_light_color
     = split_wrapped_colored (event_relative_to event day full) width
         (event_color event) bold_for_light_color)
  /\ (forall width : Z,
        width <> 0 ->
        get_list collection locale start end_ format notstarted env (Some width)
        = (blocks <- mapM (fun event =>
                             (text <- event_string event ;;
                              textwrap_wrap text width)%result)
                       rendered ;;
           Ok (concat blocks))%result)
  /\ (forall width : option Z,
        width = None \/ width = Some 0 ->
        get_list collection locale start end_ format notstarted env width
        = (blocks <- mapM (fun event =>
                             (text <- event_string event ;; Ok [text])%result)
                       rendered ;;
           Ok (concat blocks))%result).
Proof.
  intros start_local end_local range_start range_end rendered event_string.
  split; [intros; apply agenda_event_lines_split|]. split.
  - intros width Hw.
    rewrite get_list_render. fold start_local end_local range_start range_end rendered.
    unfold render_events. f_equal. apply mapM_ext. intros event.
    unfold event_lines. fold (event_string event).
    now rewrite (width_given_some width Hw).
  - intros width Hw.
    rewrite get_list_render. fold start_local end_local range_start range_end rendered.
    unfold render_events. f_equal. apply mapM_ext. intros event.
    unfold event_lines. fold (event_string event).
    now destruct Hw as [-> | ->].
Qed.

(** The stand-up with a text of two lines, listed at width 20: one line,
    the line break gone, no colour. *)
Lemma output_wrapping_witness :
  @get_list _ _ (Sample.aux Sample.june12 (Ok (None, None))) Text.terminal
    (Sample.collection [Sample.two_lines] []) Sample.locale
    (ADate Sample.june12) (ADate Sample.june12) None false None (Some 20)
  = Ok ["standup room 4"%string].
Proof.
  rewrite (proj1 (proj2 (@output_wrapping _ _ (Sample.aux Sample.june12 (Ok (None, None)))
                           Text.terminal (Sample.collection [Sample.two_lines] [])
                           Sample.locale (ADate Sample.june12) (ADate Sample.june12)
                           None false None))
             20 ltac:(discriminate)).
  vm_compute. reflexivity.
Defined.

(** C6 as stated fails in the range pipeline: split on its line break,
    wrapped and colorized, the text of the stand-up would be two coloured
    lines; [get_list] returns one plain line. *)
Lemma get_list_wraps_whole_text :
  let listed :=
    @get_list _ _ (Sample.aux Sample.june12 (Ok (None, None))) Text.terminal
      (Sample.collection [Sample.two_lines] []) Sample.locale
      (ADate Sample.june12) (ADate Sample.june12) None false None (Some 20) in
  let split_first bold :=
    @split_wrapped_colored Text.terminal (Sample.ev_summary Sample.two_lines) 20
      (Sample.ev_color Sample.two_lines) bold in
  listed = Ok ["standup room 4"%string]
  /\ (forall bold,
        split_first bold
        = Ok [Text.colored "standup" "light blue" bold;
              Text.colored "room 4" "light blue" bold])
  /\ forall bold, listed <> split_first bold.
Proof.
  intros listed split_first.
  assert (El : listed = Ok ["standup room 4"%string]) by (vm_compute; reflexivity).
  assert (Ec : forall bold,
             split_first bold
             = Ok [Text.colored "standup" "light blue" bold;
                   Text.colored "room 4" "light blue" bold])
    by (intros []; vm_compute; reflexivity).
  split; [exact El|]. split; [exact Ec|].
  intros bold. rewrite El, Ec. discriminate.
Qed.

(** ** The pipelines on the sample calendar *)

(** The agenda of 2024-06-12 and the day after: the day with events gets
    its header and one coloured line per event; the empty day is left out. *)
Example agenda_of_sample :
  @get_agenda _ _ (Sample.aux Sample.june12 (Ok (None, None))) Text.terminal
    (Sample.collection [Sample.zoned_9] [Sample.floating_8]) Sample.locale
    None 0 None 45 false false false true
  = Ok [Text.style "Today:" true;
        Text.colored "breakfast" "dark green" true;
        Text.colored "standup" "light blue" true].
Proof. vm_compute. reflexivity. Qed.

(** With [show_all_days] the empty day shows too, after a blank line. *)
Example agenda_of_sample_all_days :
  @get_agenda _ _ (Sample.aux Sample.june12 (Ok (None, None))) Text.terminal
    (Sample.collection [Sample.zoned_9] []) Sample.locale
    None 0 None 45 false false true true
  = Ok [Text.style "Today:" true;
        Text.colored "standup" "light blue" true;
        EmptyString;
        Text.style "Tomorrow:" true].
Proof. vm_compute. reflexivity. Qed.

(** A range from 08:30 over events that overlap it: [notstarted] drops the
    breakfast that began at 08:00 and keeps the stand-up of 09:00. *)
Example list_not_started :
  let aux := Sample.aux Sample.june12
               (Ok (Some (Sample.naive Sample.june12 8 30),
                    Some (Sample.naive Sample.june12 12 0))) in
  let run notstarted :=
    @get_list_from_str _ _ aux Text.terminal
      (Sample.overlapping [Sample.zoned_9] [Sample.floating_8]) Sample.locale
      ["08:30"; "12:00"]%string notstarted None true None None None in
  run false = Ok ["breakfast"; "standup"]%string
  /\ run true = Ok ["standup"]%string.
Proof. split; vm_compute; reflexivity. Qed.

(** Day by day, an event that overlaps two days is listed once per day;
    listed once, it shows once. *)
Example list_day_by_day :
  let aux := Sample.aux Sample.june12
               (Ok (Some (Sample.naive Sample.june12 8 30),
                    Some (Sample.naive (Sample.june12 + 1) 10 0))) in
  let run once :=
    @get_list_from_str _ _ aux Text.terminal
      (Sample.overlapping [Sample.zoned_9] []) Sample.locale
      ["08:30"; "tomorrow"; "10:00"]%string false None once None None None in
  run false = Ok ["standup"; "standup"]%string
  /\ run true = Ok ["standup"]%string.
Proof. split; vm_compute; reflexivity. Qed.

(** * Further properties of the controllers *)

(** ** The day window of [get_agenda] *)

(** The block of one named day in the column: its header, then the lines
    of its events in the canonical order (lines 118-127). *)
Definition agenda_group {Event : Type} `{EventClass Event} `{Terminal}
    (collection : CalendarCollection Event) (width : Z)
    (full bold_for_light_color : bool) (entry : Z * string) : result (list string) :=
  (blocks <- mapM (fun event =>
                     agenda_event_lines event (fst entry) width full bold_for_light_color)
                (sorted event_lt (get_events_on collection (fst entry))) ;;
   Ok (style (snd entry) true :: concat blocks))%result.

(** The test of line 113, negated: the day gets a block. *)
Definition day_shown {Event : Type} `{EventClass Event}
    (collection : CalendarCollection Event) (show_all_days : bool)
    (entry : Z * string) : bool :=
  negb (bool_decide (sorted event_lt (get_events_on collection (fst entry)) = [])
        && negb show_all_days).

(** Blocks put one after the other, an empty line before each but the
    first. *)
Definition join_groups (groups : list (list string)) : list string :=
  match groups with
  | [] => []
  | g :: rest => g ++ flat_map (fun g' => EmptyString :: g') rest
  end.

(** The column after the blocks [groups] are added to [event_column] the
    way lines 116-118 and 124 add them. *)
Fixpoint add_groups (event_column : list string) (groups : list (list string))
    : list string :=
  match groups with
  | [] => event_column
  | g :: rest =>
      add_groups
        ((if bool_decide (event_column = []) then event_column
          else event_column ++ [EmptyString]) ++ g)
        rest
  end.

(** The anchors after the week snap and the day count in force (lines
    99-102). *)
Definition window_anchors (dates : list Z) (firstweekday : Z) (week : bool) : list Z :=
  if week then map (week_start firstweekday) dates else dates.

Definition window_days (days : Z) (week : bool) : Z := if week then 7 else days.

Section AgendaWindow.
Context {Event : Type} `{EventClass Event} `{Aux} `{Terminal}.

Lemma agenda_day_group (collection : CalendarCollection Event) (width : Z)
    (full show_all_days bold_for_light_color : bool)
    (event_column : list string) (entry : Z * string) :
  agenda_day collection width full show_all_days bold_for_light_color event_column entry
  = if day_shown collection show_all_days entry
    then (g <- agenda_group collection width full bold_for_light_color entry ;;
          Ok (add_groups event_column [g]))%result
    else Ok event_column.
Proof.
  unfold agenda_day, day_shown, agenda_group.
  destruct (bool_decide _ && negb show_all_days); cbn [negb]; [reflexivity|].
  rewrite (foldM_append
             (fun event => agenda_event_lines event (fst entry) width full
                             bold_for_light_color)).
  destruct (mapM _ _) as [blocks|b]; cbn [Py.bind add_groups]; [|reflexivity].
  now rewrite <- app_assoc.
Qed.

Lemma agenda_days_groups (collection : CalendarCollection Event) (width : Z)
    (full show_all_days bold_for_light_color : bool)
    (daylist : list (Z * string)) (event_column : list string) :
  foldM (agenda_day collection width full show_all_days bold_for_light_color)
    daylist event_column
  = (groups <- mapM (agenda_group collection width full bold_for_light_color)
                 (List.filter (day_shown collection show_all_days) daylist) ;;
     Ok (add_groups event_column groups))%result.
Proof.
  revert event_column. induction daylist as [|entry daylist IH]; intros column;
    cbn [foldM List.filter]; [reflexivity|].
  rewrite agenda_day_group.
  destruct (day_shown collection show_all_days entry); cbn [Py.bind mapM]; [|apply IH].
  destruct (agenda_group _ _ _ _ entry) as [g|b]; cbn [Py.bind]; [|reflexivity].
  rewrite IH. now destruct (mapM _ _).
Qed.

Lemma agenda_groups_nonempty (collection : CalendarCollection Event) (width : Z)
    (full bold_for_light_color : bool) (entries : list (Z * string))
    (groups : list (list string)) :
  mapM (agenda_group collection width full bold_for_light_color) entries = Ok groups ->
  Forall (fun g => g <> []) groups.
Proof.
  revert groups. induction entries as [|entry entries IH]; cbn [mapM]; intros groups.
  - intros [= <-]. constructor.
  - unfold agenda_group at 1.
    destruct (mapM _ (sorted _ _)) as [blocks|]; cbn [Py.bind]; [|discriminate].
    destruct (mapM _ entries) as [gs|]; cbn [Py.bind]; [|discriminate].
    intros [= <-]. constructor; [discriminate|]. now apply IH.
Qed.

Lemma add_groups_nonempty (event_column : list string) (groups : list (list string)) :
  event_column <> [] ->
  add_groups event_column groups
  = event_column ++ flat_map (fun g => EmptyString :: g) groups.
Proof.
  revert event_column. induction groups as [|g groups IH]; intros column Hne;
    cbn [add_groups flat_map].
  - now rewrite app_nil_r.
  - rewrite bool_decide_eq_false_2 by exact Hne.
    rewrite IH.
    + now rewrite <- !app_assoc.
    + destruct column; [congruence|discriminate].
Qed.

Lemma add_groups_join (groups : list (list string)) :
  Forall (fun g => g <> []) groups -> add_groups [] groups = join_groups groups.
Proof.
  destruct groups as [|g groups]; [reflexivity|].
  intros Hne. apply Forall_cons in Hne as [Hg _].
  cbn [add_groups join_groups]. rewrite bool_decide_eq_true_2 by reflexivity.
  cbn [app]. now apply add_groups_nonempty.
Qed.

End AgendaWindow.

Lemma Z_ltb_order : StrictWeakOrder Z.ltb.
Proof.
  split.
  - intros a b Hab. apply Z.ltb_lt in Hab. apply Z.ltb_ge. lia.
  - unfold le_of. intros a b c Hab Hbc. apply Z.ltb_ge in Hab, Hbc.
    apply Z.ltb_ge. lia.
Qed.

Lemma flat_map_cons_perm {X Y : Type} (g : X -> Y) (h : X -> list Y) (l : list X) :
  Permutation (flat_map (fun x => g x :: h x) l) (map g l ++ flat_map h l).
Proof.
  induction l as [|x l IH]; cbn [flat_map map app]; [reflexivity|].
  constructor. rewrite IH. rewrite !app_assoc.
  apply Permutation_app_tail. apply Permutation_app_comm.
Qed.

(** The two orders of a double comprehension hold the same elements. *)
Lemma flat_map_swap_perm {X Y W : Type} (f : X -> Y -> W) (lx : list X) (ly : list Y) :
  Permutation (flat_map (fun y => map (fun x => f x y) lx) ly)
    (flat_map (fun x => map (fun y => f x y) ly) lx).
Proof.
  induction lx as [|x lx IH]; cbn [flat_map map].
  - induction ly as [|y ly IHy]; cbn [flat_map]; [reflexivity|exact IHy].
  - rewrite (flat_map_cons_perm (fun y => f x y) (fun y => map (fun x' => f x' y) lx) ly).
    now apply Permutation_app_head.
Qed.

Lemma flat_map_length_const {X Y : Type} (f : X -> list Y) (l : list X) (n : nat) :
  (forall x, length (f x) = n) -> length (flat_map f l) = (length l * n)%nat.
Proof.
  intros Hn. induction l as [|x l IH]; cbn [flat_map length]; [reflexivity|].
  rewrite length_app, Hn, IH. lia.
Qed.

Lemma range_length (n : Z) : length (range n) = Z.to_nat n.
Proof. unfold range. now rewrite length_map, length_seq. Qed.

Lemma strongly_sorted_weaken {X : Type} (R1 R2 : X -> X -> Prop) (l : list X) :
  (forall a b, R1 a b -> R2 a b) -> StronglySorted R1 l -> StronglySorted R2 l.
Proof.
  intros Himp. induction 1 as [|x l S IH Hx]; constructor; [exact IH|].
  eapply Forall_impl; [exact Hx|]. intros y. apply Himp.
Qed.

Lemma agenda_daylist_anchors (dates : list Z) (firstweekday days : Z) (week : bool) :
  agenda_daylist dates firstweekday days week
  = sorted Z.ltb
      (flat_map (fun one => map (fun day => day + one)
                              (window_anchors dates firstweekday week))
         (range (window_days days week))).
Proof. unfold agenda_daylist, window_anchors, window_days. now destruct week. Qed.

Lemma agenda_daylist_empty (dates : list Z) (firstweekday days : Z) (week : bool) :
  window_days days week <= 0 -> agenda_daylist dates firstweekday days week = [].
Proof.
  intros Hc. rewrite agenda_daylist_anchors. unfold range.
  now replace (Z.to_nat (window_days days week)) with 0%nat by lia.
Qed.

(** X1. The days [get_agenda] goes through are in ascending order and are,
    with their repetitions, the days of the windows of the anchors: each
    anchor (moved to the start of its week when [week] is set) contributes
    its own run of consecutive days, and a day that lies in the windows of
    several anchors is listed once for each.  There are as many days as
    anchors times the day count, and none when the day count is not
    positive. *)
Theorem agenda_daylist_window (dates : list Z) (firstweekday days : Z) (week : bool) :
  let anchors := window_anchors dates firstweekday week in
  let count := window_days days week in
  let daylist := agenda_daylist dates firstweekday days week in
  StronglySorted Z.le daylist
  /\ Permutation daylist
       (flat_map (fun anchor => map (fun one => anchor + one) (range count)) anchors)
  /\ length daylist = (length dates * Z.to_nat count)%nat
  /\ (count <= 0 -> daylist = []).
Proof.
  intros anchors count daylist.
  assert (Hperm : Permutation daylist
            (flat_map (fun one => map (fun day => day + one) anchors) (range count))).
  { subst daylist. rewrite agenda_daylist_anchors. apply sorted_perm. }
  split; [|split; [|split]].
  - subst daylist. rewrite agenda_daylist_anchors.
    apply (strongly_sorted_weaken (le_of Z.ltb)).
    + intros a b Hab. now apply Z.ltb_ge in Hab.
    + apply (@sorted_sorted _ Z.ltb Z_ltb_order).
  - rewrite Hperm. apply (flat_map_swap_perm (fun day one => day + one)).
  - rewrite (Permutation_length Hperm).
    rewrite (flat_map_swap_perm (fun day one => day + one)).
    rewrite (flat_map_length_const _ _ (Z.to_nat count)).
    + subst anchors. unfold window_anchors. destruct week; [now rewrite length_map|reflexivity].
    + intros x. now rewrite length_map, range_length.
  - apply agenda_daylist_empty.
Qed.

(** Two anchors one day apart, two days each: the day they share is
    listed twice. *)
Lemma agenda_daylist_window_witness :
  agenda_daylist [Sample.june12 + 1; Sample.june12] 0 2 false
  = [Sample.june12; Sample.june12 + 1; Sample.june12 + 1; Sample.june12 + 2]
  /\ agenda_daylist [Sample.june12] 0 0 false = [].
Proof.
  split; [vm_compute; reflexivity|].
  apply (proj2 (proj2 (proj2 (agenda_daylist_window [Sample.june12] 0 0 false)))).
  vm_compute. discriminate.
Defined.

Lemma agenda_column_groups {Event : Type} `{EventClass Event} `{Aux} `{Terminal}
    (collection : CalendarCollection Event) (locale : Locale)
    (dates : option (list (string + Z))) (firstweekday : Z) (days : option Z)
    (width : Z) (week full show_all_days bold_for_light_color : bool) :
  agenda_column collection locale dates firstweekday days width week full
    show_all_days bold_for_light_color
  = (anchors <- agenda_dates locale dates ;;
     groups <- mapM (agenda_group collection width full bold_for_light_color)
                 (List.filter (day_shown collection show_all_days)
                    (construct_daynames
                       (agenda_daylist anchors firstweekday (default 2 days) week)
                       (longdateformat locale))) ;;
     Ok (join_groups groups))%result.
Proof.
  unfold agenda_column.
  destruct (agenda_dates locale dates) as [anchors|b]; cbn [Py.bind]; [|reflexivity].
  rewrite agenda_days_groups.
  destruct (mapM _ _) as [groups|b] eqn:E; cbn [Py.bind]; [|reflexivity].
  f_equal. apply add_groups_join. eapply agenda_groups_nonempty. exact E.
Qed.

(** X2. The column [get_agenda] builds is the blocks of the days that are
    shown, in the order of the day list, with one empty line between two
    blocks and none before the first or after the last.  A day is shown
    when it has an event or [show_all_days] is set; its block is its header
    followed by the lines of its events in the canonical order.  The first
    day whose block cannot be built aborts the call. *)
Theorem agenda_blocks {Event : Type} `{EventClass Event} `{Aux} `{Terminal}
    (collection : CalendarCollection Event) (locale : Locale)
    (dates : option (list (string + Z))) (firstweekday : Z) (days : option Z)
    (width : Z) (week full show_all_days bold_for_light_color : bool) :
  agenda_column collection locale dates firstweekday days width week full
    show_all_days bold_for_light_color
  = (anchors <- agenda_dates locale dates ;;
     groups <- mapM (agenda_group collection width full bold_for_light_color)
                 (List.filter (day_shown collection show_all_days)
                    (construct_daynames
                       (agenda_daylist anchors firstweekday (default 2 days) week)
                       (longdateformat locale))) ;;
     Ok (join_groups groups))%result.
Proof. apply agenda_column_groups. Qed.

Section AgendaDefaults.
Context {Event : Type} `{EventClass Event} `{Aux} `{Terminal}.

Lemma default_daylist (firstweekday : Z) :
  agenda_daylist [today] firstweekday 2 false = [today; today + 1].
Proof.
  unfold agenda_daylist.
  change (sorted Z.ltb [today + 0; today + 1] = [today; today + 1]).
  rewrite Z.add_0_r. apply (sorted_id Z.ltb).
  repeat constructor. unfold le_of. apply Z.ltb_ge. lia.
Qed.

Lemma default_daynames (pattern : string) :
  construct_daynames [today; today + 1] pattern
  = [(today, "Today:"%string); (today + 1, "Tomorrow:"%string)].
Proof.
  unfold construct_daynames. cbn [map].
  rewrite Z.eqb_refl.
  replace (today + 1 =? today) with false by (symmetry; apply Z.eqb_neq; lia).
  now rewrite Z.eqb_refl.
Qed.

End AgendaDefaults.

(** X3. Called with [week] unset, without anchors (none, or an empty
    list) and without a day count, [get_agenda] lists today and tomorrow,
    in this order, under the headers [Today:] and [Tomorrow:], whatever
    the first weekday and the long date format are.  With [week] set the
    days are the seven of the week of today instead. *)
Theorem agenda_default_window {Event : Type} `{EventClass Event} `{Aux} `{Terminal}
    (collection : CalendarCollection Event) (locale : Locale)
    (firstweekday width : Z) (full show_all_days bold_for_light_color : bool)
    (dates : option (list (string + Z))) :
  dates = None \/ dates = Some [] ->
  agenda_column collection locale dates firstweekday None width false full
    show_all_days bold_for_light_color
  = (groups <- mapM (agenda_group collection width full bold_for_light_color)
                 (List.filter (day_shown collection show_all_days)
                    [(today, "Today:"%string); (today + 1, "Tomorrow:"%string)]) ;;
     Ok (join_groups groups))%result.
Proof.
  intros Hdates. rewrite agenda_column_groups.
  assert (Ha : agenda_dates locale dates = Ok [today])
    by (destruct Hdates as [-> | ->]; reflexivity).
  rewrite Ha. cbn [Py.bind]. change (default 2 None) with 2.
  now rewrite default_daylist, default_daynames.
Qed.

(** The sample calendar on 2024-06-12, every day shown: today with its two
    events, an empty line, tomorrow with none. *)
Lemma agenda_default_window_witness :
  @agenda_column _ _ (Sample.aux Sample.june12 (Ok (None, None))) Text.terminal
    (Sample.collection [Sample.zoned_9] [Sample.floating_8]) Sample.locale
    None 0 None 45 false false true true
  = Ok [Text.style "Today:" true;
        Text.colored "breakfast" "dark green" true;
        Text.colored "standup" "light blue" true;
        EmptyString;
        Text.style "Tomorrow:" true].
Proof.
  rewrite (@agenda_default_window _ _ (Sample.aux Sample.june12 (Ok (None, None)))
             Text.terminal (Sample.collection [Sample.zoned_9] [Sample.floating_8])
             Sample.locale 0 45 false true true None (or_introl eq_refl)).
  vm_compute. reflexivity.
Defined.

(** X4. When the parser raises [InvalidDate] for an anchor given as a
    string, and the anchors before it went through, [get_agenda] logs that
    error and exits with status 1: no line is returned, whatever the
    calendar holds.  Anchors given as dates are not parsed. *)
Theorem agenda_invalid_anchor {Event : Type} `{EventClass Event} `{Aux} `{Terminal}
    (collection : CalendarCollection Event) (locale : Locale)
    (before after : list (string + Z)) (text msg : string)
    (firstweekday : Z) (days : option Z) (width : Z)
    (week full show_all_days bold_for_light_color : bool) :
  (forall s, In (inl s) before -> exists parsed, guessdatetimefstr [s] locale = Ok parsed) ->
  guessdatetimefstr [text] locale = raise (InvalidDate msg) ->
  get_agenda collection locale (Some (before ++ inl text :: after)) firstweekday days
    width week full show_all_days bold_for_light_color
  = fatal (InvalidDate msg).
Proof.
  intros Hbefore Htext.
  unfold get_agenda, agenda_column, agenda_dates.
  destruct (before ++ inl text :: after) as [|a rest] eqn:E;
    [now destruct before|].
  rewrite <- E.
  rewrite (mapM_abort_first _ before after (inl text) (Uncaught (InvalidDate msg))).
  - reflexivity.
  - intros y Hy. apply list_elem_of_In in Hy. destruct y as [s|d]; [|eauto].
    destruct (Hbefore s Hy) as [parsed ->]. cbn [Py.bind]. eauto.
  - now rewrite Htext.
Qed.

(** A date, then a string the sample parser does not read. *)
Lemma agenda_invalid_anchor_witness :
  @get_agenda _ _ (Sample.aux Sample.june12 (Ok (None, None))) Text.terminal
    (Sample.collection [Sample.zoned_9] [Sample.floating_8]) Sample.locale
    (Some [inr Sample.june12; inl "someday"%string]) 0 None 45 false false false true
  = fatal (InvalidDate "no date").
Proof.
  apply (@agenda_invalid_anchor _ _ (Sample.aux Sample.june12 (Ok (None, None)))
           Text.terminal (Sample.collection [Sample.zoned_9] [Sample.floating_8])
           Sample.locale [inr Sample.june12] [] "someday" "no date"
           0 None 45 false false false true).
  - intros s [Hs|[]]. discriminate Hs.
  - reflexivity.
Defined.

(** X5. With a day count that is not positive, and [week] unset,
    [get_agenda] asks the calendar for no day and returns the single line
    [No events], whatever the calendar holds and whether or not
    [show_all_days] is set. *)
Theorem agenda_no_days {Event : Type} `{EventClass Event} `{Aux} `{Terminal}
    (collection : CalendarCollection Event) (locale : Locale)
    (dates : option (list (string + Z))) (anchors : list Z)
    (firstweekday days width : Z) (full show_all_days bold_for_light_color : bool) :
  days <= 0 ->
  agenda_dates locale dates = Ok anchors ->
  get_agenda collection locale dates firstweekday (Some days) width false full
    show_all_days bold_for_light_color
  = Ok [style "No events" true].
Proof.
  intros Hdays Hdates. unfold get_agenda. rewrite agenda_column_groups, Hdates.
  cbn [Py.bind]. change (default 2 (Some days)) with days.
  rewrite (agenda_daylist_empty anchors firstweekday days false) by exact Hdays.
  reflexivity.
Qed.

(** A day count of zero over the sample calendar. *)
Lemma agenda_no_days_witness :
  @get_agenda _ _ (Sample.aux Sample.june12 (Ok (None, None))) Text.terminal
    (Sample.collection [Sample.zoned_9] [Sample.floating_8]) Sample.locale
    None 0 (Some 0) 45 false false true true
  = Ok [Text.style "No events" true].
Proof.
  apply (@agenda_no_days _ _ (Sample.aux Sample.june12 (Ok (None, None)))
           Text.terminal (Sample.collection [Sample.zoned_9] [Sample.floating_8])
           Sample.locale None [Sample.june12] 0 0 45 false true true).
  - vm_compute. discriminate.
  - reflexivity.
Defined.

(** ** The days of the range of [get_list_from_str] *)

(** The calendar days of the sub-ranges, by their starts. *)
Definition window_days_of (windows : list (datetime * datetime)) : list Z :=
  map (fun w => date (fst w)) windows.

(** [n] consecutive days from [day]. *)
Definition days_from (day : Z) (n : nat) : list Z :=
  map (fun i => day + Z.of_nat i) (seq 0 n).

Section PartitionDays.
Context `{Aux}.

Lemma days_from_succ (day : Z) (n : nat) :
  days_from day (S n) = day :: days_from (day + 1) n.
Proof.
  unfold days_from. cbn [seq map]. rewrite Z.add_0_r. f_equal.
  rewrite <- seq_shift, map_map. apply map_ext. intros i. lia.
Qed.

Definition partition_days_shape (start end_ : datetime)
    (windows : list (datetime * datetime)) : Prop :=
  window_days_of windows = days_from (date start) (length windows)
  /\ Z.of_nat (length windows)
     = (if wall start <? wall end_
        then date (dt_add end_ (-1)) - date start + 1 else 0)
  /\ Forall (fun w => date (fst w) * DAY <= wall (fst w)
                      /\ wall (snd w) < (date (fst w) + 1) * DAY) windows.

Lemma partition_days_shape_holds (start end_ : datetime) :
  partition_days_shape start end_ (partition start end_).
Proof.
  apply (partition_ind partition_days_shape); clear start end_.
  - intros start end_ Hlt. unfold dt_ltb in Hlt.
    split; [reflexivity|]. split; [now rewrite Hlt|constructor].
  - intros start end_ rest Hlt (Hdays & Hlen & Hin).
    unfold dt_ltb in Hlt. pose proof Hlt as Hlt'. apply Z.ltb_lt in Hlt'.
    pose proof (date_bounds start) as Bs. pose proof (date_bounds end_) as Be.
    pose proof (date_bounds (dt_add end_ (-1))) as Bl. cbn [wall dt_add] in Bl.
    pose proof (date_mono start end_ ltac:(lia)) as Hd.
    pose proof (day_end_of_wall start end_) as Hde.
    pose proof (next_day_start_wall start) as Hn.
    pose proof (next_day_start_date start) as Hnd.
    split; [|split].
    + unfold window_days_of in *. cbn [map length fst]. rewrite days_from_succ.
      f_equal. rewrite Hdays, Hnd. reflexivity.
    + cbn [length]. rewrite Hlt. rewrite Nat2Z.inj_succ, Hlen, Hn, Hnd.
      destruct (Z.ltb_spec ((date start + 1) * DAY) (wall end_)) as [Hmore|Hlast].
      * lia.
      * unfold DAY in *. lia.
    + constructor; [|exact Hin]. cbn [fst snd]. rewrite Hde.
      destruct (Z.eqb_spec (date start) (date end_)) as [E|E];
        unfold time_max, DAY in *; lia.
Qed.

End PartitionDays.

(** X6. With [once] unset, [get_list_from_str] asks [get_list] once for
    each calendar day the range touches, in order: the sub-ranges fall on
    consecutive days from the day of [start], each inside its day, and a
    range with [start < end] has as many sub-ranges as there are days from
    the day of [start] to the day of the last instant before [end]. *)
Theorem partition_one_per_day `{Aux} (start end_ : datetime) :
  let windows := partition start end_ in
  window_days_of windows = days_from (date start) (length windows)
  /\ Forall (fun w => date (fst w) * DAY <= wall (fst w)
                      /\ wall (snd w) < (date (fst w) + 1) * DAY) windows
  /\ (wall start < wall end_ ->
      Z.of_nat (length windows) = date (dt_add end_ (-1)) - date start + 1).
Proof.
  intros windows.
  destruct (partition_days_shape_holds start end_) as (Hdays & Hlen & Hin).
  split; [exact Hdays|]. split; [exact Hin|].
  intros Hlt. subst windows. rewrite Hlen. now rewrite (proj2 (Z.ltb_lt _ _) Hlt).
Qed.

(** From 08:30 on 2024-06-12 to midnight two days later: two sub-ranges,
    none for the day that starts at the end of the range. *)
Lemma partition_one_per_day_witness :
  let aux := Sample.aux Sample.june12 (Ok (None, None)) in
  Z.of_nat (length (@partition aux (Sample.naive Sample.june12 8 30)
                      (Sample.naive (Sample.june12 + 2) 0 0)))
  = 2.
Proof.
  intros aux.
  rewrite (proj2 (proj2 (@partition_one_per_day aux (Sample.naive Sample.june12 8 30)
                           (Sample.naive (Sample.june12 + 2) 0 0))));
    vm_compute; reflexivity.
Defined.

(** ** Ranges that are empty, or inside one day *)

(** X7. When the resolved range does not have [start < end] and [once] is
    unset, the loop of [get_list_from_str] does not run: the calendar is
    not asked, and the result is the single line [No events] whatever the
    calendar holds. *)
Theorem empty_range_lists_nothing {Event : Type} `{EventClass Event} `{Aux} `{Terminal}
    (collection : CalendarCollection Event) (locale : Locale)
    (daterange : list string) (notstarted : bool) (format : option string)
    (default_timedelta : option string) (env : option (gmap string string))
    (width : option Z) (range : datetime * datetime) :
  list_range locale daterange default_timedelta = Ok range ->
  wall (snd range) <= wall (fst range) ->
  get_list_from_str collection locale daterange notstarted format false
    default_timedelta env width
  = Ok [style "No events" true].
Proof.
  intros Hrange Hle. unfold get_list_from_str. rewrite Hrange. cbn [Py.bind].
  rewrite list_column_partition, partition_unfold.
  replace (dt_ltb (fst range) (snd range)) with false
    by (symmetry; now apply Z.ltb_ge).
  reflexivity.
Qed.

(** A parser that answers 09:00 for both ends, over a calendar with a
    stand-up at 09:00. *)
Lemma empty_range_lists_nothing_witness :
  let nine := Sample.naive Sample.june12 9 0 in
  @get_list_from_str _ _ (Sample.aux Sample.june12 (Ok (Some nine, Some nine)))
    Text.terminal (Sample.overlapping [Sample.zoned_9] []) Sample.locale
    ["09:00"; "0m"]%string false None false None None None
  = Ok [Text.style "No events" true].
Proof.
  intros nine.
  apply (@empty_range_lists_nothing _ _
           (Sample.aux Sample.june12 (Ok (Some nine, Some nine))) Text.terminal
           (Sample.overlapping [Sample.zoned_9] []) Sample.locale
           ["09:00"; "0m"]%string false None None None None (nine, nine)).
  - reflexivity.
  - vm_compute. discriminate.
Defined.

(** X8. For a range with [start < end] inside one calendar day, listing day
    by day is one call of [get_list] on the range itself with the
    environment map passed on; without an environment map the result is the
    same with [once] set and unset. *)
Theorem same_day_range {Event : Type} `{EventClass Event} `{Aux} `{Terminal}
    (collection : CalendarCollection Event) (locale : Locale)
    (daterange : list string) (notstarted : bool) (format : option string)
    (default_timedelta : option string) (env : option (gmap string string))
    (width : option Z) (range : datetime * datetime) :
  list_range locale daterange default_timedelta = Ok range ->
  wall (fst range) < wall (snd range) ->
  date (fst range) = date (snd range) ->
  get_list_from_str collection locale daterange notstarted format false
    default_timedelta env width
  = (event_column <- get_list collection locale (ADatetime (fst range))
                       (ADatetime (snd range)) format notstarted
                       (Some (default ∅ env)) width ;;
     Ok (or_placeholder event_column))%result
  /\ get_list_from_str collection locale daterange notstarted format false
       default_timedelta None width
     = get_list_from_str collection locale daterange notstarted format true
         default_timedelta None width.
Proof.
  intros Hrange Hlt Hday.
  assert (Hcol : forall env',
             list_column collection locale format notstarted false env' width
               (fst range) (snd range)
             = get_list collection locale (ADatetime (fst range))
                 (ADatetime (snd range)) format notstarted (Some (default ∅ env')) width).
  { intros env'. rewrite list_column_partition.
    rewrite (partition_same_day _ _ Hlt Hday). cbn [mapM Py.bind].
    unfold window_lines. cbn [fst snd].
    destruct (get_list _ _ _ _ _ _ _ _) as [lines|b]; cbn [Py.bind concat];
      [now rewrite app_nil_r|reflexivity]. }
  unfold get_list_from_str. rewrite Hrange. cbn [Py.bind]. split.
  - now rewrite Hcol.
  - rewrite Hcol. reflexivity.
Qed.

(** From 08:30 to noon on the sample calendar, with and without [once]. *)
Lemma same_day_range_witness :
  let aux := Sample.aux Sample.june12
               (Ok (Some (Sample.naive Sample.june12 8 30),
                    Some (Sample.naive Sample.june12 12 0))) in
  @get_list_from_str _ _ aux Text.terminal
    (Sample.overlapping [Sample.zoned_9] [Sample.floating_8]) Sample.locale
    ["08:30"; "12:00"]%string true None false None None None
  = @get_list_from_str _ _ aux Text.terminal
      (Sample.overlapping [Sample.zoned_9] [Sample.floating_8]) Sample.locale
      ["08:30"; "12:00"]%string true None true None None None.
Proof.
  intros aux.
  apply (proj2 (@same_day_range _ _ aux Text.terminal
                  (Sample.overlapping [Sample.zoned_9] [Sample.floating_8])
                  Sample.locale ["08:30"; "12:00"]%string true None None None None
                  (Sample.naive Sample.june12 8 30, Sample.naive Sample.june12 12 0)
                  eq_refl ltac:(vm_compute; reflexivity) ltac:(vm_compute; reflexivity))).
Defined.

(** ** How [get_list] can end *)

Section MapM.
Context {A B : Type}.

Lemma mapM_abort_inv (f : A -> result B) (l : list A) (b : abort) :
  mapM f l = Abort b -> exists x, In x l /\ f x = Abort b.
Proof.
  induction l as [|x l IH]; cbn [mapM]; [discriminate|].
  destruct (f x) as [y|b'] eqn:E; cbn [Py.bind].
  - destruct (mapM f l) as [ys|b'']; cbn [Py.bind]; [discriminate|].
    intros [= <-]. destruct (IH eq_refl) as (x' & Hin & Hx'). exists x'. split; [now right|exact Hx'].
  - intros [= <-]. exists x. split; [now left|exact E].
Qed.

Lemma mapM_all_ok (f : A -> result B) (l : list A) :
  (forall x, In x l -> exists y, f x = Ok y) -> exists ys, mapM f l = Ok ys.
Proof.
  induction l as [|x l IH]; cbn [mapM]; intros Hall; [eauto|].
  destruct (Hall x (or_introl eq_refl)) as [y ->]. cbn [Py.bind].
  destruct IH as [ys ->]; [intros x' Hx'; apply Hall; now right|].
  cbn [Py.bind]. eauto.
Qed.

Lemma mapM_results (f : A -> result B) (l : list A) (ys : list B) :
  mapM f l = Ok ys -> Forall2 (fun x y => f x = Ok y) l ys.
Proof.
  revert ys. induction l as [|x l IH]; cbn [mapM]; intros ys.
  - intros [= <-]. constructor.
  - destruct (f x) as [y|] eqn:E; cbn [Py.bind]; [|discriminate].
    destruct (mapM f l) as [ys'|]; cbn [Py.bind]; [|discriminate].
    intros [= <-]. constructor; auto.
Qed.

End MapM.

(** Once the range is filled in and the calendar has answered, the loop
    of lines 284-296 ends well when every event it renders is formatted
    and wrapped, and otherwise the way the first event that failed did. *)
Lemma get_list_event_failures {Event : Type} `{EventClass Event} `{Aux} `{Terminal}
    (collection : CalendarCollection Event) (locale : Locale)
    (start end_ : temporal) (format : option string) (notstarted : bool)
    (env : option (gmap string string)) (width : option Z) :
  let start_local := datetime_fillin (Some start) false (Some locale) None in
  let end_local := datetime_fillin (Some end_) true (Some locale) None in
  let range_start := replace_tzinfo_none start_local in
  let range_end := replace_tzinfo_none end_local in
  let rendered :=
    List.filter (event_kept locale notstarted range_start)
      (merge_events collection start_local end_local range_start range_end) in
  let formatted event :=
    event_format event format (range_start, range_end) (default ∅ env) in
  let listed := get_list collection locale start end_ format notstarted env width in
  ((forall event, In event rendered ->
      exists text, formatted event = Ok text
        /\ (width_given width = true ->
            exists lines, textwrap_wrap text (default 0 width) = Ok lines)) ->
   exists lines, listed = Ok lines)
  /\ forall b, listed = Abort b ->
       exists event, In event rendered
         /\ ((exists key, formatted event = raise (KeyError key)
                          /\ b = Exit (KeyError key) 1)
             \/ (formatted event = Abort b
                 /\ forall key, b <> Uncaught (KeyError key))
             \/ (exists text, formatted event = Ok text
                   /\ width_given width = true
                   /\ textwrap_wrap text (default 0 width) = Abort b)).
Proof.
  intros start_local end_local range_start range_end rendered formatted listed.
  assert (Hlisted : listed = render_events format (default ∅ env) width
                               range_start range_end rendered)
    by apply get_list_render.
  split.
  - intros Hall. rewrite Hlisted. unfold render_events.
    destruct (mapM_all_ok (event_lines format (default ∅ env) width range_start range_end)
                rendered) as [blocks ->]; [|cbn [Py.bind]; eauto].
    intros event Hin. destruct (Hall event Hin) as (text & Htext & Hwrap).
    unfold event_lines. fold (formatted event). rewrite Htext. cbn [try_except Py.bind].
    destruct (width_given width); [|eauto].
    destruct (Hwrap eq_refl) as [lines ->]. eauto.
  - intros b Hb. rewrite Hlisted in Hb. unfold render_events in Hb.
    destruct (mapM _ rendered) as [blocks|b'] eqn:E; cbn [Py.bind] in Hb; [discriminate|].
    injection Hb as ->.
    destruct (mapM_abort_inv _ _ _ E) as (event & Hin & Hev).
    exists event. split; [exact Hin|].
    unfold event_lines in Hev. fold (formatted event) in Hev.
    destruct (formatted event) as [text|[e code|e]] eqn:Ef; cbn [try_except Py.bind] in Hev.
    + right. right. exists text. split; [reflexivity|].
      destruct (width_given width); [split; [reflexivity|exact Hev]|discriminate].
    + right. left. injection Hev as <-. split; [reflexivity|discriminate].
    + destruct e as [msg|msg|key]; cbn [Py.bind] in Hev.
      * right. left. injection Hev as <-. split; [reflexivity|discriminate].
      * right. left. injection Hev as <-. split; [reflexivity|discriminate].
      * left. exists key. split; [reflexivity|]. now injection Hev as <-.
Qed.

(** ** [get_list] with collaborators that raise *)

(** The calls of lines 275-285 as the interpreter makes them: each returns
    a value or ends with an exception.  [fill_in dt end locale] is
    [aux.datetime_fillin(dt, end=end, locale=locale)]; [sort_events] is
    [sorted], which raises what a comparison of two events raises. *)
Record Reads (Event : Type) : Type := mkReads {
  fill_in : temporal -> bool -> Locale -> result datetime;
  read_localized : datetime -> datetime -> result (list Event);
  read_floating : datetime -> datetime -> result (list Event);
  sort_events : list Event -> result (list Event)
}.
Arguments mkReads {Event} _ _ _ _.
Arguments fill_in {Event} _ _ _ _.
Arguments read_localized {Event} _ _ _.
Arguments read_floating {Event} _ _ _.
Arguments sort_events {Event} _ _.

Section ListReads.
Context {Event : Type} `{EventClass Event} `{Aux} `{Terminal}.

(** Lines 285-296: the body of the loop, the fill-in of the start of the
    event first, for every event. *)
Definition render_event_reads (reads : Reads Event) (locale : Locale)
    (format : option string) (notstarted : bool) (env : gmap string string)
    (width : option Z) (start end_ : datetime) (event_list : list string)
    (event : Event) : result (list string) :=
  (event_start_local <- fill_in reads (event_start event) false locale ;;
   if negb (notstarted && dt_ltb (replace_tzinfo_none event_start_local) start) then
     (event_string <-
        try_except (event_format event format (start, end_) env)
          (fun e => match e with KeyError _ => Some (fatal e) | _ => None end) ;;
      if width_given width then
        (lines <- textwrap_wrap event_string (default 0 width) ;;
         Ok (event_list ++ lines))
      else Ok (event_list ++ [event_string]))
   else Ok event_list)%result.

(** [get_list], lines 271-298, call by call. *)
Definition get_list_reads (reads : Reads Event) (locale : Locale)
    (start end_ : temporal) (format : option string) (notstarted : bool)
    (env : option (gmap string string)) (width : option Z) : result (list string) :=
  let env := default ∅ env in
  (start_local <- fill_in reads start false locale ;;
   end_local <- fill_in reads end_ true locale ;;
   let start := replace_tzinfo_none start_local in
   let end_ := replace_tzinfo_none end_local in
   found <- read_localized reads start_local end_local ;;
   events <- sort_events reads found ;;
   found_float <- read_floating reads start end_ ;;
   events_float <- sort_events reads found_float ;;
   events <- sort_events reads (events ++ events_float) ;;
   foldM (render_event_reads reads locale format notstarted env width start end_)
     events [])%result.

(** The calls all return, and what they return is what [collection], the
    fill-in and [sorted] give. *)
Definition returns_as (reads : Reads Event) (collection : CalendarCollection Event)
    : Prop :=
  (forall dt end_ locale,
     fill_in reads dt end_ locale = Ok (datetime_fillin (Some dt) end_ (Some locale) None))
  /\ (forall a b, read_localized reads a b = Ok (get_localized collection a b))
  /\ (forall a b, read_floating reads a b = Ok (get_floating collection a b))
  /\ (forall events, sort_events reads events = Ok (sorted event_lt events)).

(** The calls that [collection] answers; [get_localized] raises [failure]
    when one is given. *)
Definition reads_of (collection : CalendarCollection Event) (failure : option abort)
    : Reads Event :=
  mkReads
    (fun dt end_ locale => Ok (datetime_fillin (Some dt) end_ (Some locale) None))
    (fun a b => match failure with
                | Some b' => Abort b'
                | None => Ok (get_localized collection a b)
                end)
    (fun a b => Ok (get_floating collection a b))
    (fun events => Ok (sorted event_lt events)).

(** An exception that comes out of a call [get_list] makes and does not
    catch: of the fill-in, of a query, of a comparison in [sorted], of
    [event.format] when it is no [KeyError], or of [textwrap.wrap]. *)
Definition raised_by_call (reads : Reads Event) (locale : Locale)
    (format : option string) (env : gmap string string) (width : option Z)
    (b : abort) : Prop :=
  (exists dt end_, fill_in reads dt end_ locale = Abort b)
  \/ (exists a c, read_localized reads a c = Abort b)
  \/ (exists a c, read_floating reads a c = Abort b)
  \/ (exists events, sort_events reads events = Abort b)
  \/ (exists event range,
        event_format event format range env = Abort b
        /\ forall key, b <> Uncaught (KeyError key))
  \/ (exists text,
        width_given width = true /\ textwrap_wrap text (default 0 width) = Abort b).

Lemma foldM_abort_inv {X St : Type} (f : St -> X -> result St) (l : list X)
    (s : St) (b : abort) :
  foldM f l s = Abort b -> exists s' x, In x l /\ f s' x = Abort b.
Proof.
  revert s. induction l as [|x l IH]; intros s; cbn [foldM]; [discriminate|].
  destruct (f s x) as [s1|b'] eqn:E; cbn [Py.bind].
  - intros Hrest. destruct (IH _ Hrest) as (s' & x' & Hin & Hx').
    exists s', x'. split; [now right|exact Hx'].
  - intros [= <-]. exists s, x. split; [now left|exact E].
Qed.

Lemma render_event_reads_abort (reads : Reads Event) (locale : Locale)
    (format : option string) (notstarted : bool) (env : gmap string string)
    (width : option Z) (start end_ : datetime) (event_list : list string)
    (event : Event) (b : abort) :
  render_event_reads reads locale format notstarted env width start end_ event_list event
  = Abort b ->
  raised_by_call reads locale format env width b
  \/ exists key,
       event_format event format (start, end_) env = raise (KeyError key)
       /\ b = Exit (KeyError key) 1.
Proof.
  unfold render_event_reads, raised_by_call.
  destruct (fill_in reads (event_start event) false locale) as [filled|b'] eqn:F;
    cbn [Py.bind].
  2:{ intros [= <-]. left. left. eauto. }
  destruct (negb _); [|discriminate].
  destruct (event_format event format (start, end_) env) as [text|[e code|e]] eqn:Ef;
    cbn [try_except Py.bind].
  - destruct (width_given width) eqn:W; [|discriminate].
    destruct (textwrap_wrap text (default 0 width)) as [lines|b'] eqn:Ew;
      cbn [Py.bind]; [discriminate|].
    intros [= <-]. left. do 5 right. exists text. now split.
  - intros [= <-]. left. do 4 right. left. exists event, (start, end_).
    split; [exact Ef|discriminate].
  - destruct e as [msg|msg|key]; cbn [Py.bind].
    + intros [= <-]. left. do 4 right. left. exists event, (start, end_).
      split; [exact Ef|discriminate].
    + intros [= <-]. left. do 4 right. left. exists event, (start, end_).
      split; [exact Ef|discriminate].
    + intros [= <-]. right. exists key. now split.
Qed.

Lemma get_list_reads_agrees (reads : Reads Event)
    (collection : CalendarCollection Event) (locale : Locale)
    (start end_ : temporal) (format : option string) (notstarted : bool)
    (env : option (gmap string string)) (width : option Z) :
  returns_as reads collection ->
  get_list_reads reads locale start end_ format notstarted env width
  = get_list collection locale start end_ format notstarted env width.
Proof.
  intros (Hfill & Hloc & Hfloat & Hsort).
  unfold get_list_reads, get_list, merge_events.
  rewrite !Hfill. cbn [Py.bind]. rewrite Hloc. cbn [Py.bind].
  rewrite Hsort. cbn [Py.bind]. rewrite Hfloat. cbn [Py.bind].
  rewrite Hsort. cbn [Py.bind]. rewrite Hsort. cbn [Py.bind].
  apply foldM_ext. intros event_list event.
  unfold render_event_reads, render_event, naive_start.
  rewrite Hfill. reflexivity.
Qed.

End ListReads.



(** X10. Without a width (none, or 0), a call of [get_list] that returns
    gives exactly one line for each event it renders, in the merged order:
    the string [event.format] returned for it, whatever line breaks the
    string holds. *)
Theorem get_list_line_per_event {Event : Type} `{EventClass Event} `{Aux} `{Terminal}
    (collection : CalendarCollection Event) (locale : Locale)
    (start end_ : temporal) (format : option string) (notstarted : bool)
    (env : option (gmap string string)) (width : option Z) (lines : list string) :
  let start_local := datetime_fillin (Some start) false (Some locale) None in
  let end_local := datetime_fillin (Some end_) true (Some locale) None in
  let range_start := replace_tzinfo_none start_local in
  let range_end := replace_tzinfo_none end_local in
  let rendered :=
    List.filter (event_kept locale notstarted range_start)
      (merge_events collection start_local end_local range_start range_end) in
  width_given width = false ->
  get_list collection locale start end_ format notstarted env width = Ok lines ->
  Forall2 (fun event line =>
             event_format event format (range_start, range_end) (default ∅ env) = Ok line)
    rendered lines
  /\ length lines = length rendered.
Proof.
  intros start_local end_local range_start range_end rendered Hw Hlist.
  rewrite get_list_render in Hlist.
  fold start_local end_local range_start range_end rendered in Hlist.
  unfold render_events in Hlist.
  destruct (mapM _ rendered) as [blocks|] eqn:E; cbn [Py.bind] in Hlist; [|discriminate].
  injection Hlist as <-. apply mapM_results in E.
  assert (HF : Forall2 (fun event line =>
                 event_format event format (range_start, range_end) (default ∅ env)
                 = Ok line) rendered (concat blocks)).
  { induction E as [|event block events blocks Hev _ IH]; cbn [concat]; [constructor|].
    unfold event_lines in Hev. rewrite Hw in Hev.
    destruct (event_format event format _ _) as [text|[e code|[]]] eqn:Ef;
      cbn [try_except Py.bind] in Hev; try discriminate.
    injection Hev as <-. cbn [app]. constructor; [exact Ef|exact IH]. }
  split; [exact HF|]. symmetry. eapply Forall2_length. exact HF.
Qed.

(** The stand-up with two lines of text, listed without a width: one
    line, the line break in it. *)
Lemma get_list_line_per_event_witness :
  length ["standup" +:+ Sample.newline +:+ "room 4"]%string = 1%nat.
Proof.
  apply (proj2 (@get_list_line_per_event _ Sample.event_class (Sample.aux Sample.june12 (Ok (None, None)))
                  Text.terminal (Sample.collection [Sample.two_lines] [])
                  Sample.locale (ADate Sample.june12) (ADate Sample.june12)
                  None false None None
                  ["standup" +:+ Sample.newline +:+ "room 4"]%string
                  eq_refl ltac:(vm_compute; reflexivity))).
Defined.

(** ** The commands [khal_list] and [calendar] *)

(** [conf[section][key]] on the configuration, a dictionary of sections; a
    missing section or key raises [KeyError]. *)
Definition conf_item (conf : gmap string (gmap string string)) (section key : string) : result string :=
  match conf !! section with
  | None => raise (KeyError section)
  | Some items =>
      match items !! key with
      | None => raise (KeyError key)
      | Some value => Ok value
      end
  end.

(** Lines 147-151 and 304-308: the format and the default span taken from
    the configuration. *)
Definition conf_defaults (conf : option (gmap string (gmap string string))) (format : option string)
    : result (option string * option string) :=
  match conf with
  | None => Ok (format, None)
  | Some conf =>
      (format <- match format with
                 | None => (value <- conf_item conf "view" "event_format" ;;
                            Ok (Some value))
                 | Some _ => Ok format
                 end ;;
       td <- conf_item conf "default" "timedelta" ;;
       Ok (format, Some td))%result
  end.

(** ['\n'.join(lines)] *)
Definition line_feed : string := String (ascii_of_nat 10) EmptyString.
Definition join_lines (lines : list string) : string := String.concat line_feed lines.

(** [khal_list]: the result is the text handed to [echo]; [locale], [env]
    and [width] are what [**kwargs] carries on to [get_list_from_str]. *)
Definition khal_list {Event : Type} `{EventClass Event} `{Aux} `{Terminal}
    (collection : CalendarCollection Event) (locale : Locale)
    (daterange : list string) (conf : option (gmap string (gmap string string))) (format : option string)
    (once notstarted : bool) (env : option (gmap string string)) (width : option Z)
    : result string :=
  (defaults <- conf_defaults conf format ;;
   event_column <- get_list_from_str collection locale daterange notstarted
                     (fst defaults) once (snd defaults) env width ;;
   Ok (join_lines event_column))%result.

(** The arguments [calendar] hands on to [vertical_month]. *)
Record MonthOptions : Type := mkMonthOptions {
  firstweekday : Z;
  weeknumber : option string;
  hmethod : string;
  default_color : string;
  multiple : string;
  color : string;
  highlight_event_days : Z
}.

(** [shutil.get_terminal_size], [calendar_display.vertical_month] and
    [terminal.merge_columns]. *)
Class CalendarDisplay (Event : Type) : Type := {
  get_terminal_size : Z * Z;
  vertical_month : MonthOptions -> CalendarCollection Event -> Locale -> bool -> list string;
  merge_columns : list string -> list string -> list string
}.

(** [calendar]: the result is the text handed to [echo]; [env] is what
    [**kwargs] may carry on. *)
Definition calendar {Event : Type} `{EventClass Event} `{Aux} `{Terminal}
    `{CalendarDisplay Event}
    (collection : CalendarCollection Event) (format : option string)
    (notstarted once : bool) (daterange : list string) (locale : Locale)
    (conf : option (gmap string (gmap string string))) (options : MonthOptions) (bold_for_light_color : bool)
    (env : option (gmap string string)) : result string :=
  (defaults <- conf_defaults conf format ;;
   let term_width := fst get_terminal_size in
   let lwidth := 25 in
   let rwidth := term_width - lwidth - 4 in
   event_column <- get_list_from_str collection locale daterange notstarted
                     (fst defaults) once (snd defaults) env (Some rwidth) ;;
   let calendar_column :=
     vertical_month options collection locale bold_for_light_color in
   let rows := merge_columns calendar_column event_column in
   Ok (join_lines rows))%result.

(** [textwrap.wrap] refuses a width that is not positive. *)
Definition wrap_needs_width `{Terminal} : Prop :=
  forall (text : string) (width : Z),
    width <= 0 -> exists msg, textwrap_wrap text width = raise (ValueError msg).

(** A terminal for the sample calendar: [columns] wide, a month of one
    line, and columns merged line by line. *)
Definition sample_display (columns : Z) : CalendarDisplay Sample.event := {|
  get_terminal_size := (columns, 24);
  vertical_month := fun _ _ _ _ => ["Mo Tu We Th Fr Sa Su"%string];
  merge_columns := fun left right =>
    zip_with (fun l r => (l +:+ "    " +:+ r)%string) left right
|}.

Definition sample_options : MonthOptions :=
  mkMonthOptions 0 None "fg" EmptyString EmptyString EmptyString 0.

Definition sample_conf (timedelta : string) : gmap string (gmap string string) :=
  {[ "default"%string := {[ "timedelta"%string := timedelta ]};
     "view"%string := {[ "event_format"%string := "summary"%string ]} ]}.

Lemma text_wrap_needs_width : @wrap_needs_width Text.terminal.
Proof.
  intros text width Hw. cbn [textwrap_wrap Text.terminal]. unfold Text.wrap.
  rewrite (proj2 (Z.leb_le width 0) Hw). eauto.
Qed.

Section Commands.
Context {Event : Type} `{EventClass Event} `{Aux} `{Terminal}.

Lemma khal_list_defaults (collection : CalendarCollection Event) (locale : Locale)
    (daterange : list string) (conf : option (gmap string (gmap string string)))
    (format : option string) (once notstarted : bool)
    (env : option (gmap string string)) (width : option Z)
    (fmt td : option string) :
  conf_defaults conf format = Ok (fmt, td) ->
  khal_list collection locale daterange conf format once notstarted env width
  = (event_column <- get_list_from_str collection locale daterange notstarted
                       fmt once td env width ;;
     Ok (join_lines event_column))%result.
Proof. intros E. unfold khal_list. now rewrite E. Qed.

Lemma conf_defaults_span (conf : gmap string (gmap string string))
    (format fmt td : option string) :
  conf_defaults (Some conf) format = Ok (fmt, td) ->
  exists text, td = Some text /\ conf_item conf "default" "timedelta" = Ok text.
Proof.
  unfold conf_defaults.
  destruct (match format with None => _ | Some _ => _ end) as [f|];
    cbn [Py.bind]; [|discriminate].
  destruct (conf_item conf "default" "timedelta") as [text|]; cbn [Py.bind];
    [|discriminate].
  intros [= _ <-]. eauto.
Qed.

End Commands.

(** X11. With a configuration, [khal_list] always hands the configured
    [timedelta] on as the default span, so for an empty token list the
    range runs from the start of today for that span, and never to the end
    of today; a configured [timedelta] that does not parse is fatal. *)
Theorem khal_list_configured_span {Event : Type} `{EventClass Event} `{Aux} `{Terminal}
    (collection : CalendarCollection Event) (locale : Locale)
    (conf : gmap string (gmap string string)) (format fmt td : option string)
    (once notstarted : bool) (env : option (gmap string string)) (width : option Z) :
  let start := combine today time_min in
  conf_defaults (Some conf) format = Ok (fmt, td) ->
  exists text,
    conf_item conf "default" "timedelta" = Ok text
    /\ (forall delta,
          guesstimedeltafstr text = Ok delta ->
          khal_list collection locale [] (Some conf) format once notstarted env width
          = (event_column <- list_column collection locale fmt notstarted once env
                               width start (dt_add start delta) ;;
             Ok (join_lines (or_placeholder event_column)))%result)
    /\ (forall msg,
          guesstimedeltafstr text = raise (ValueError msg) ->
          khal_list collection locale [] (Some conf) format once notstarted env width
          = fatal (ValueError msg)).
Proof.
  intros start Hconf.
  destruct (conf_defaults_span conf format fmt td Hconf) as (text & -> & Htext).
  exists text. split; [exact Htext|].
  rewrite (khal_list_defaults _ _ _ _ _ _ _ _ _ _ _ Hconf).
  unfold get_list_from_str, list_range. cbn [length Nat.eqb].
  split.
  - intros delta Hd. rewrite Hd. cbn [Py.bind try_except fst snd].
    fold start. now destruct (list_column _ _ _ _ _ _ _ _ _).
  - intros msg Hd. rewrite Hd. reflexivity.
Qed.

(** The sample configuration with a span of one day, and with a span the
    sample parser does not read. *)
Lemma khal_list_configured_span_witness :
  @khal_list _ _ (Sample.aux Sample.june12 (Ok (None, None))) Text.terminal
    (Sample.overlapping [Sample.zoned_9] []) Sample.locale []
    (Some (sample_conf "soon")) None true false None None
  = fatal (ValueError "soon").
Proof.
  destruct (@khal_list_configured_span _ _ (Sample.aux Sample.june12 (Ok (None, None)))
              Text.terminal (Sample.overlapping [Sample.zoned_9] []) Sample.locale
              (sample_conf "soon") None (Some "summary"%string) (Some "soon"%string)
              true false None None ltac:(vm_compute; reflexivity))
    as (text & Htext & _ & Hfatal).
  assert (text = "soon"%string) as -> by (vm_compute in Htext; congruence).
  apply Hfatal. reflexivity.
Defined.

(** X12. A configuration without the section [default], or without its key
    [timedelta], makes [khal_list] raise [KeyError] before anything is
    listed; without a format, so does one without [view] or its key
    [event_format].  With a format given, [view] is not read: two
    configurations with the same [default] section give the same result. *)
Theorem khal_list_missing_conf {Event : Type} `{EventClass Event} `{Aux} `{Terminal}
    (collection : CalendarCollection Event) (locale : Locale)
    (daterange : list string) (conf : gmap string (gmap string string))
    (once notstarted : bool) (env : option (gmap string string)) (width : option Z) :
  let run conf format :=
    khal_list collection locale daterange (Some conf) format once notstarted env width in
  (forall format key,
     conf_item conf "default" "timedelta" = raise (KeyError key) ->
     (format = None -> exists value, conf_item conf "view" "event_format" = Ok value) ->
     run conf format = raise (KeyError key))
  /\ (forall key,
        conf_item conf "view" "event_format" = raise (KeyError key) ->
        run conf None = raise (KeyError key))
  /\ (forall format other,
        other !! "default"%string = conf !! "default"%string ->
        run other (Some format) = run conf (Some format)).
Proof.
  intros run. split; [|split].
  - intros format key Hdefault Hview. subst run. unfold khal_list, conf_defaults.
    destruct format as [f|].
    + cbn [Py.bind]. rewrite Hdefault. reflexivity.
    + destruct (Hview eq_refl) as [value ->]. cbn [Py.bind].
      rewrite Hdefault. reflexivity.
  - intros key Hview. subst run. unfold khal_list, conf_defaults.
    rewrite Hview. reflexivity.
  - intros format other Hsame. subst run. unfold khal_list, conf_defaults, conf_item.
    cbn [Py.bind]. now rewrite Hsame.
Qed.

(** A configuration with nothing but a [view] section. *)
Lemma khal_list_missing_conf_witness :
  @khal_list _ _ (Sample.aux Sample.june12 (Ok (None, None))) Text.terminal
    (Sample.overlapping [Sample.zoned_9] []) Sample.locale []
    (Some {[ "view"%string := {[ "event_format"%string := "summary"%string ]} ]})
    None true false None None
  = raise (KeyError "default").
Proof.
  apply (proj1 (@khal_list_missing_conf _ _ (Sample.aux Sample.june12 (Ok (None, None)))
                  Text.terminal (Sample.overlapping [Sample.zoned_9] []) Sample.locale []
                  {[ "view"%string := {[ "event_format"%string := "summary"%string ]} ]}
                  true false None None) None "default"%string).
  - vm_compute. reflexivity.
  - intros _. eexists. vm_compute. reflexivity.
Defined.

Section NarrowTerminal.
Context {Event : Type} `{EventClass Event} `{Aux} `{Terminal}.

Lemma get_list_negative_width (collection : CalendarCollection Event)
    (locale : Locale) (start end_ : temporal) (format : option string)
    (notstarted : bool) (env : option (gmap string string)) (width : Z)
    (lines : list string) :
  wrap_needs_width -> width < 0 ->
  get_list collection locale start end_ format notstarted env (Some width) = Ok lines ->
  lines = [].
Proof.
  intros Hwrap Hw Hlist. rewrite get_list_render in Hlist.
  unfold render_events in Hlist.
  destruct (List.filter _ _) as [|event rest]; [now injection Hlist as <-|].
  exfalso. cbn [mapM] in Hlist. unfold event_lines at 1 in Hlist.
  destruct (try_except _ _) as [text|]; cbn [Py.bind] in Hlist; [|discriminate].
  replace (width_given (Some width)) with true in Hlist
    by (symmetry; apply negb_true_iff, Z.eqb_neq; lia).
  destruct (Hwrap text width ltac:(lia)) as [msg Hmsg].
  change (default 0 (Some width)) with width in Hlist.
  rewrite Hmsg in Hlist. discriminate.
Qed.

Lemma list_column_negative_width (collection : CalendarCollection Event)
    (locale : Locale) (format : option string) (notstarted once : bool)
    (env : option (gmap string string)) (width : Z) (start end_ : datetime)
    (event_column : list string) :
  wrap_needs_width -> width < 0 ->
  list_column collection locale format notstarted once env (Some width) start end_
    = Ok event_column ->
  event_column = [].
Proof.
  intros Hwrap Hw. destruct once.
  - unfold list_column. cbn [negb]. now apply get_list_negative_width.
  - rewrite list_column_partition.
    destruct (mapM _ _) as [blocks|] eqn:E; cbn [Py.bind]; [|discriminate].
    intros [= <-]. apply mapM_results in E.
    induction E as [|w block ws blocks Hw' _ IH]; [reflexivity|].
    cbn [concat]. rewrite IH.
    unfold window_lines in Hw'.
    now rewrite (get_list_negative_width _ _ _ _ _ _ _ _ _ Hwrap Hw Hw').
Qed.

Lemma event_lines_width_zero (format : option string) (env : gmap string string)
    (start end_ : datetime) (event : Event) :
  event_lines format env (Some 0) start end_ event
  = event_lines format env None start end_ event.
Proof. reflexivity. Qed.

Lemma get_list_width_zero (collection : CalendarCollection Event)
    (locale : Locale) (start end_ : temporal) (format : option string)
    (notstarted : bool) (env : option (gmap string string)) :
  get_list collection locale start end_ format notstarted env (Some 0)
  = get_list collection locale start end_ format notstarted env None.
Proof.
  rewrite !get_list_render. reflexivity.
Qed.

Lemma list_column_width_zero (collection : CalendarCollection Event)
    (locale : Locale) (format : option string) (notstarted once : bool)
    (env : option (gmap string string)) (start end_ : datetime) :
  list_column collection locale format notstarted once env (Some 0) start end_
  = list_column collection locale format notstarted once env None start end_.
Proof.
  destruct once.
  - unfold list_column. cbn [negb]. apply get_list_width_zero.
  - rewrite !list_column_partition. reflexivity.
Qed.

End NarrowTerminal.



(** With an event to list, the same terminal makes the call raise
    [ValueError]. *)
Example calendar_narrow_terminal_raises :
  @calendar _ _ (Sample.aux Sample.june12 (Ok (None, None))) Text.terminal
    (sample_display 20) (Sample.collection [Sample.zoned_9] []) None false true []
    Sample.locale None sample_options true None
  = raise (ValueError "invalid width (must be > 0)").
Proof. vm_compute. reflexivity. Qed.

(** ** The commands that change the collection

    [import_ics], [import_event] and [new_from_string] talk to the user and
    change the collection; they are embedded over an explicit world: what
    the user will answer, what was printed and logged, and the state of the
    collection. *)

Module Command.

(** The exceptions of these commands; [SystemExit] is [sys.exit]. *)
Inductive error : Type :=
| KeyError (key : string)
| ValueError (msg : string)
| IndexError
| UnboundLocalError (name : string)
| DuplicateUid
| ReadOnlyCalendarError
| FatalError
| SystemExit (status : Z)
| Abort.

(** What [prompt] and [confirm] will return, one answer per call
    ([click] raises [Abort] at the end of the input); the texts given to
    [echo], and the texts given to the logger with their level
    ([logger.warn], [logger.fatal]), oldest first; the collection. *)
Record world (S : Type) : Type := mkWorld {
  answers : list string;
  confirmations : list bool;
  echoed : list string;
  logged : list (string * string);
  store : S
}.
Arguments mkWorld {S} _ _ _ _ _.
Arguments answers {S} _.
Arguments confirmations {S} _.
Arguments echoed {S} _.
Arguments logged {S} _.
Arguments store {S} _.

Definition cmd (S A : Type) : Type := world S -> (A + error) * world S.

Definition ret {S A : Type} (a : A) : cmd S A := fun w => (inl a, w).

Definition throw {S A : Type} (e : error) : cmd S A := fun w => (inr e, w).

Definition bind {S A B : Type} (c : cmd S A) (k : A -> cmd S B) : cmd S B :=
  fun w =>
    match c w with
    | (inl a, w') => k a w'
    | (inr e, w') => (inr e, w')
    end.

(** A value that may be an exception, as a command. *)
Definition lift {S A : Type} (r : A + error) : cmd S A := fun w => (r, w).

(** [for x in l: body x] *)
Fixpoint for_each {S A : Type} (body : A -> cmd S unit) (l : list A) : cmd S unit :=
  match l with
  | [] => ret tt
  | x :: l' => bind (body x) (fun _ => for_each body l')
  end.

(** [echo(text)] *)
Definition echo {S : Type} (text : string) : cmd S unit :=
  fun w => (inl tt, mkWorld (answers w) (confirmations w) (echoed w ++ [text])
                      (logged w) (store w)).

(** [logger.warn(text)] and [logger.fatal(text)] *)
Definition log {S : Type} (level text : string) : cmd S unit :=
  fun w => (inl tt, mkWorld (answers w) (confirmations w) (echoed w)
                      (logged w ++ [(level, text)]) (store w)).

Definition warn {S : Type} (text : string) : cmd S unit := log "warning" text.

Definition log_fatal {S : Type} (text : string) : cmd S unit := log "critical" text.

(** [prompt(...)] *)
Definition prompt {S : Type} : cmd S string :=
  fun w =>
    match answers w with
    | [] => (inr Abort, w)
    | value :: rest =>
        (inl value, mkWorld rest (confirmations w) (echoed w) (logged w) (store w))
    end.

(** [confirm(...)] *)
Definition confirm {S : Type} : cmd S bool :=
  fun w =>
    match confirmations w with
    | [] => (inr Abort, w)
    | yes :: rest =>
        (inl yes, mkWorld (answers w) rest (echoed w) (logged w) (store w))
    end.

(** A method of the collection: it changes the collection, or raises and
    leaves it as it was. *)
Definition update {S : Type} (f : S -> S + error) : cmd S unit :=
  fun w =>
    match f (store w) with
    | inl s => (inl tt, mkWorld (answers w) (confirmations w) (echoed w) (logged w) s)
    | inr e => (inr e, w)
    end.

(** A component of a parsed calendar, as [cal.walk()] yields it: its
    [name] and its properties. *)
Record component : Type := mkComponent {
  comp_name : string;
  properties : gmap string string
}.

(** [component[key]] *)
Definition property (c : component) (key : string) : string + error :=
  match properties c !! key with
  | Some value => inl value
  | None => inr (KeyError key)
  end.

(** The collection as the import commands use it, and the helpers they
    call: [int], the order [sort_key] puts two events in
    ([sort_key(a) < sort_key(b)]),
    [Calendar.from_ical(ics).walk()], the [event_description] and the [uid]
    of [Event.fromVEvents([sub_event], ...)], and the [Item] made of
    [aux.ics_from_list(vevent, random_uid)]. *)
Class Importer (S Item : Type) : Type := {
  writable_names : list string;
  default_calendar_name : string;
  new : Item -> string -> S -> S + error;
  force_update : Item -> string -> S -> S + error;
  int : string -> option Z;
  sort_key_lt : component -> component -> bool;
  walk : string -> list component + error;
  event_description : component -> string -> Locale -> string;
  event_uid : component -> string;
  item_of : list component -> bool -> Item
}.

Section Commands.
Context {S Item : Type} `{Importer S Item}.

(** [names[number]] *)
Definition index (names : list string) (number : Z) : option string :=
  let n := Z.of_nat (length names) in
  let i := if number <? 0 then number + n else number in
  if (0 <=? i) && (i <? n) then nth_error names (Z.to_nat i) else None.

(** Lines 405-413: the calendar an answer stands for, if it stands for
    one: a number is an index into [writable_names]; anything else, and a
    number out of range, is a name by its beginning, when exactly one name
    begins so. *)
Definition choice (value : string) : option string :=
  match match int value with
        | Some number => index writable_names number
        | None => None
        end with
  | Some calendar_name => Some calendar_name
  | None =>
      match List.filter (String.prefix value) writable_names with
      | [calendar_name] => Some calendar_name
      | _ => None
      end
  end.

(** Lines 402-414: the [while True] loop, one turn per answer. *)
Fixpoint ask (values : list string) : (string + error) * list string * list string :=
  match values with
  | [] => (inr Abort, [], [])
  | value :: rest =>
      match choice value with
      | Some calendar_name => (inl calendar_name, rest, [])
      | None =>
          let r := ask rest in
          (fst (fst r), snd (fst r), "invalid choice"%string :: snd r)
      end
  end.

Definition ask_calendar : cmd S string :=
  fun w =>
    let r := ask (answers w) in
    (fst (fst r),
     mkWorld (snd (fst r)) (confirmations w) (echoed w ++ snd r) (logged w) (store w)).

(** Lines 394-414: the calendar to insert into. *)
Definition target_calendar (batch : bool) : cmd S string :=
  if batch || (length writable_names =? 1)%nat then
    match writable_names with
    | calendar_name :: _ => ret calendar_name
    | [] => throw IndexError
    end
  else ask_calendar.

(** [batch or confirm(...)] *)
Definition batch_or_confirm (batch : bool) : cmd S bool :=
  if batch then ret true else confirm.

Definition backquote : string := String (ascii_of_nat 96) EmptyString.

(** [import_event] *)
Definition import_event (vevent : list component) (locale : Locale)
    (batch random_uid : bool) : cmd S unit :=
  bind (for_each (fun sub_event =>
                    if negb batch
                    then echo (event_description sub_event default_calendar_name locale)
                    else ret tt)
          vevent) (fun _ =>
  let event := if batch then None else last vevent in
  bind (target_calendar batch) (fun calendar_name =>
  bind (batch_or_confirm batch) (fun yes =>
  if yes then
    let item := item_of vevent random_uid in
    fun w =>
      match update (new item calendar_name) w with
      | (inr DuplicateUid, w') =>
          bind (batch_or_confirm batch) (fun again =>
            if again then update (force_update item calendar_name)
            else
              match event with
              | Some event =>
                  warn ("Not importing event with UID " +:+ backquote
                        +:+ event_uid event +:+ backquote)%string
              | None => throw (UnboundLocalError "event")
              end) w'
      | r => r
      end
  else ret tt))).

(** [events_grouped[uid].append(event)] on a dictionary that keeps the
    order in which its keys came in. *)
Fixpoint group_append (groups : list (string * list component)) (uid : string)
    (event : component) : list (string * list component) :=
  match groups with
  | [] => [(uid, [event])]
  | (key, events) :: rest =>
      if String.eqb key uid then (key, events ++ [event]) :: rest
      else (key, events) :: group_append rest uid event
  end.

(** Lines 373-375. *)
Fixpoint group_events (groups : list (string * list component))
    (events : list component) : list (string * list component) + error :=
  match events with
  | [] => inl groups
  | event :: rest =>
      match property event "UID" with
      | inl uid => group_events (group_append groups uid event) rest
      | inr e => inr e
      end
  end.

(** [sorted(events, key=sort_key)] *)
Definition sorted_by_key (events : list component) : list component :=
  sorted sort_key_lt events.

(** Lines 371-379: the lists [import_ics] hands to [import_event], one per
    uid. *)
Definition vevents_of (ics : string) : list (list component) + error :=
  match walk ics with
  | inr e => inr e
  | inl items =>
      let events := List.filter (fun item => String.eqb (comp_name item) "VEVENT") items in
      match group_events [] events with
      | inr e => inr e
      | inl events_grouped => inl (map (fun g => sorted_by_key (snd g)) events_grouped)
      end
  end.

(** [import_ics]; [locale] is [conf['locale']], if the key is there. *)
Definition import_ics (locale : option Locale) (ics : string)
    (batch random_uid : bool) : cmd S unit :=
  bind (lift (vevents_of ics)) (fun vevents =>
  for_each (fun vevent =>
              match locale with
              | Some locale => import_event vevent locale batch random_uid
              | None => throw (KeyError "locale")
              end)
    vevents).

End Commands.

(** The options of [new_from_string] it hands on to
    [aux.construct_event]. *)
Record NewOptions : Type := mkNewOptions {
  location : option string;
  categories : option string;
  repeat_rule : option string;
  until : option string;
  alarm : option string
}.

(** The helpers of [new_from_string]: [aux.construct_event],
    [Event.fromVEvents([event], calendar=..., locale=...)],
    [collection.new(event)], [event.format(format, datetime.now())], and
    [collection._calnames[event.calendar].path + event.href]. *)
Class Creator (S E : Type) : Type := {
  construct_event : list string -> NewOptions -> Locale -> component + error;
  from_vevents : component -> string -> Locale -> E;
  new_event : E -> S -> S + error;
  format_now : E -> string -> string + error;
  path_of : S -> E -> string + error
}.

Section NewFromString.
Context {S E : Type} `{Creator S E}.

Definition double_quote : string := String (ascii_of_nat 34) EmptyString.

(** The text of line 338. *)
Definition read_only_message (calendar_name : string) : string :=
  ("ERROR: Cannot modify calendar " +:+ double_quote +:+ calendar_name
   +:+ double_quote +:+ " as it is read-only")%string.

(** [conf[section][key]] *)
Definition item (conf : gmap string (gmap string string)) (section key : string)
    : string + error :=
  match conf !! section with
  | None => inr (KeyError section)
  | Some items =>
      match items !! key with
      | None => inr (KeyError key)
      | Some value => inl value
      end
  end.

(** [new_from_string]; [locale] is [conf['locale']], if the key is
    there. *)
Definition new_from_string (calendar_name : string)
    (conf : gmap string (gmap string string)) (locale : option Locale)
    (date_list : list string) (options : NewOptions) (format : option string)
    : cmd S unit :=
  bind (lift (match locale with
              | Some locale => inl locale
              | None => inr (KeyError "locale")
              end)) (fun locale =>
  bind (lift (match construct_event date_list options locale with
              | inr FatalError => inr (SystemExit 1)
              | r => r
              end)) (fun event =>
  let event := from_vevents event calendar_name locale in
  bind (fun w =>
          match update (new_event event) w with
          | (inr ReadOnlyCalendarError, w') =>
              bind (log_fatal (read_only_message calendar_name))
                (fun _ => throw (SystemExit 1)) w'
          | r => r
          end) (fun _ =>
  bind (lift (item conf "default" "print_new")) (fun print_new =>
  if String.eqb print_new "event" then
    bind (match format with
          | None => lift (item conf "view" "event_format")
          | Some format => ret format
          end) (fun format =>
    bind (lift (format_now event format)) echo)
  else if String.eqb print_new "path" then
    bind (fun w => (path_of (store w) event, w)) echo
  else ret tt)))).

End NewFromString.

End Command.

(** ** Grouping the events of an import by uid *)

Module CommandFacts.
Import Command.

(** The event has the uid. *)
Definition has_uid (uid : string) (event : component) : bool :=
  match property event "UID" with
  | inl u => String.eqb u uid
  | inr _ => false
  end.

(** The dictionary [groups] holds the events [done], each under its uid
    and in the order it came. *)
Definition grouped (groups : list (string * list component))
    (done : list component) : Prop :=
  NoDup (map fst groups)
  /\ Forall (fun g => snd g <> [] /\ snd g = List.filter (has_uid (fst g)) done) groups
  /\ Forall (fun e => exists u, property e "UID" = inl u /\ In u (map fst groups)) done.

Lemma has_uid_own (event : component) (uid : string) :
  property event "UID" = inl uid -> has_uid uid event = true.
Proof. unfold has_uid. intros ->. apply String.eqb_refl. Qed.

Lemma has_uid_other (event : component) (uid key : string) :
  property event "UID" = inl uid -> key <> uid -> has_uid key event = false.
Proof.
  unfold has_uid. intros -> Hne. apply String.eqb_neq. congruence.
Qed.

Lemma filter_snoc {X : Type} (f : X -> bool) (l : list X) (x : X) :
  List.filter f (l ++ [x]) = List.filter f l ++ (if f x then [x] else []).
Proof. rewrite List.filter_app. reflexivity. Qed.

Lemma filter_none {X : Type} (f : X -> bool) (l : list X) :
  (forall x, In x l -> f x = false) -> List.filter f l = [].
Proof.
  induction l as [|x l IH]; cbn [List.filter]; intros Hall; [reflexivity|].
  rewrite (Hall x (or_introl eq_refl)). apply IH. intros y Hy. apply Hall. now right.
Qed.

Lemma group_append_keys (groups : list (string * list component)) (uid : string)
    (event : component) (key : string) :
  In key (map fst (group_append groups uid event))
  <-> In key (map fst groups) \/ key = uid.
Proof.
  induction groups as [|[k events] groups IH]; cbn [group_append map fst In].
  - intuition congruence.
  - destruct (String.eqb_spec k uid) as [->|Hne]; cbn [map fst In].
    + intuition congruence.
    + rewrite IH. tauto.
Qed.

Lemma group_append_nodup (groups : list (string * list component)) (uid : string)
    (event : component) :
  NoDup (map fst groups) -> NoDup (map fst (group_append groups uid event)).
Proof.
  induction groups as [|[k events] groups IH]; cbn [group_append map fst]; intros Hnd.
  - repeat constructor. intros Hin. now apply elem_of_nil in Hin.
  - apply NoDup_cons in Hnd as [Hk Hnd].
    destruct (String.eqb_spec k uid) as [->|Hne]; cbn [map fst].
    + now apply NoDup_cons.
    + apply NoDup_cons. split; [|now apply IH].
      rewrite list_elem_of_In, group_append_keys. rewrite list_elem_of_In in Hk.
      intros [Hin|Heq]; [now apply Hk|congruence].
Qed.

Lemma group_append_groups (groups : list (string * list component)) (uid : string)
    (event : component) (done : list component) :
  property event "UID" = inl uid ->
  NoDup (map fst groups) ->
  (~ In uid (map fst groups) -> List.filter (has_uid uid) done = []) ->
  Forall (fun g => snd g <> [] /\ snd g = List.filter (has_uid (fst g)) done) groups ->
  Forall (fun g => snd g <> []
                   /\ snd g = List.filter (has_uid (fst g)) (done ++ [event]))
    (group_append groups uid event).
Proof.
  intros Huid. induction groups as [|[k events] groups IH];
    cbn [group_append map fst]; intros Hnd Hnew Hall.
  - constructor; [|constructor]. cbn [fst snd]. split; [discriminate|].
    rewrite filter_snoc, (has_uid_own _ _ Huid), Hnew; [reflexivity|intros []].
  - apply NoDup_cons in Hnd as [Hk Hnd]. rewrite list_elem_of_In in Hk.
    apply Forall_cons in Hall as [[Hne Hev] Hall]. cbn [fst snd] in Hne, Hev.
    destruct (String.eqb_spec k uid) as [->|Hku].
    + constructor; cbn [fst snd].
      * split; [now destruct events|].
        now rewrite filter_snoc, (has_uid_own _ _ Huid), Hev.
      * rewrite Forall_forall in Hall |- *. intros g Hg.
        destruct (Hall g Hg) as [Hgne Hgev]. split; [exact Hgne|].
        rewrite filter_snoc, (has_uid_other _ _ _ Huid), app_nil_r; [exact Hgev|].
        intros Heq. apply Hk. rewrite <- Heq.
        apply list_elem_of_In in Hg. now apply in_map.
    + constructor; cbn [fst snd].
      * split; [exact Hne|].
        now rewrite filter_snoc, (has_uid_other _ _ _ Huid Hku), app_nil_r.
      * apply IH; [exact Hnd| |exact Hall].
        intros Hnot. apply Hnew. cbn [In]. intros [Heq|Hin]; [congruence|now apply Hnot].
Qed.

Lemma grouped_append (groups : list (string * list component)) (uid : string)
    (event : component) (done : list component) :
  property event "UID" = inl uid ->
  grouped groups done -> grouped (group_append groups uid event) (done ++ [event]).
Proof.
  intros Huid (Hnd & Hall & Hcov). split; [|split].
  - now apply group_append_nodup.
  - apply group_append_groups; [exact Huid|exact Hnd| |exact Hall].
    intros Hnot. apply filter_none. intros e He.
    rewrite Forall_forall in Hcov.
    destruct (Hcov e (proj2 (list_elem_of_In _ _) He)) as (u & Hu & Hin).
    apply (has_uid_other _ _ _ Hu). congruence.
  - apply Forall_app. split.
    + eapply Forall_impl; [exact Hcov|]. intros e (u & Hu & Hin).
      exists u. split; [exact Hu|]. apply group_append_keys. now left.
    + constructor; [|constructor]. exists uid. split; [exact Huid|].
      apply group_append_keys. now right.
Qed.

Lemma group_events_grouped (events done : list component)
    (groups final : list (string * list component)) :
  group_events groups events = inl final ->
  grouped groups done -> grouped final (done ++ events).
Proof.
  revert groups done. induction events as [|event events IH]; intros groups done;
    cbn [group_events].
  - intros [= <-]. now rewrite app_nil_r.
  - destruct (property event "UID") as [uid|e] eqn:Huid; [|discriminate].
    intros Hfinal Hg.
    replace (done ++ event :: events) with ((done ++ [event]) ++ events)
      by now rewrite <- app_assoc.
    eapply IH; [exact Hfinal|]. now apply grouped_append.
Qed.

Lemma group_append_perm (groups : list (string * list component)) (uid : string)
    (event : component) :
  Permutation (concat (map snd (group_append groups uid event)))
    (concat (map snd groups) ++ [event]).
Proof.
  induction groups as [|[k events] groups IH]; cbn [group_append map snd concat].
  - reflexivity.
  - destruct (String.eqb k uid); cbn [map snd concat].
    + rewrite <- !app_assoc. apply Permutation_app_head. apply Permutation_app_comm.
    + rewrite IH. now rewrite app_assoc.
Qed.

Lemma group_events_perm (events : list component)
    (groups final : list (string * list component)) :
  group_events groups events = inl final ->
  Permutation (concat (map snd final)) (concat (map snd groups) ++ events).
Proof.
  revert groups. induction events as [|event events IH]; intros groups;
    cbn [group_events].
  - intros [= <-]. now rewrite app_nil_r.
  - destruct (property event "UID") as [uid|e]; [|discriminate].
    intros Hfinal. rewrite (IH _ Hfinal), group_append_perm.
    now rewrite <- app_assoc.
Qed.

(** The first event without a uid stops the grouping. *)
Lemma group_events_missing (events : list component)
    (groups : list (string * list component)) :
  (exists event, In event events /\ properties event !! "UID"%string = None) ->
  group_events groups events = inr (KeyError "UID").
Proof.
  revert groups. induction events as [|event events IH]; intros groups
    (bad & Hin & Hbad); [destruct Hin|].
  cbn [group_events]. unfold property at 1.
  destruct (properties event !! "UID"%string) as [uid|] eqn:E; [|reflexivity].
  apply IH. exists bad. split; [|exact Hbad].
  destruct Hin as [->|Hin]; [congruence|exact Hin].
Qed.

(** A collection for trying the commands: a calendar name and a uid per
    stored item; [new] refuses a uid that is there, and a calendar that is
    not writable. *)
Definition sample_new (names : list string) (uid calendar_name : string)
    (items : list (string * string)) : list (string * string) + error :=
  if negb (existsb (String.eqb calendar_name) names) then inr ReadOnlyCalendarError
  else if existsb (fun entry => String.eqb (snd entry) uid) items then inr DuplicateUid
  else inl (items ++ [(calendar_name, uid)]).

Definition sample_force_update (uid calendar_name : string)
    (items : list (string * string)) : list (string * string) + error :=
  inl (List.filter (fun entry => negb (String.eqb (snd entry) uid)) items
       ++ [(calendar_name, uid)]).

(** Decimal digits, with a sign: enough of [int] for the answers tried. *)
Fixpoint digits (acc : Z) (s : string) : option Z :=
  match s with
  | EmptyString => Some acc
  | String c rest =>
      let n := Z.of_nat (nat_of_ascii c) in
      if (48 <=? n) && (n <=? 57) then digits (acc * 10 + (n - 48)) rest else None
  end.

Definition sample_int (s : string) : option Z :=
  match s with
  | EmptyString => None
  | String "-" EmptyString => None
  | String "-" rest => option_map Z.opp (digits 0 rest)
  | _ => digits 0 s
  end.

(** The order of [sort_key] inside one uid: the event without a
    [RECURRENCE-ID] first. *)
Definition sample_key (c : component) : Z :=
  match properties c !! "RECURRENCE-ID"%string with
  | None => 0
  | Some _ => 1
  end.

Definition sample_uid (c : component) : string :=
  match properties c !! "UID"%string with
  | Some uid => uid
  | None => EmptyString
  end.

Definition sample_summary (c : component) : string :=
  match properties c !! "SUMMARY"%string with
  | Some text => text
  | None => EmptyString
  end.

Definition sample_importer (names : list string) (items : list component)
    : Importer (list (string * string)) string := {|
  writable_names := names;
  default_calendar_name := match names with name :: _ => name | [] => EmptyString end;
  new := sample_new names;
  force_update := sample_force_update;
  int := sample_int;
  sort_key_lt := fun a b => sample_key a <? sample_key b;
  walk := fun _ => inl items;
  event_description := fun c _ _ => sample_summary c;
  event_uid := sample_uid;
  item_of := fun vevent _ => match vevent with c :: _ => sample_uid c | [] => EmptyString end
|}.

Definition vevent (uid summary : string) : component :=
  mkComponent "VEVENT" {[ "UID"%string := uid; "SUMMARY"%string := summary ]}.

Definition vevent_exception (uid summary : string) : component :=
  mkComponent "VEVENT"
    {[ "UID"%string := uid; "SUMMARY"%string := summary;
       "RECURRENCE-ID"%string := "20240613"%string ]}.

Definition vtimezone : component :=
  mkComponent "VTIMEZONE" {[ "TZID"%string := "Europe/Berlin"%string ]}.

Definition no_uid : component :=
  mkComponent "VEVENT" {[ "SUMMARY"%string := "lost"%string ]}.

Lemma sample_key_order : StrictWeakOrder (fun a b => sample_key a <? sample_key b).
Proof.
  split.
  - intros a b Hab. apply Z.ltb_lt in Hab. apply Z.ltb_ge. lia.
  - unfold le_of. intros a b c Hab Hbc. apply Z.ltb_ge in Hab, Hbc.
    apply Z.ltb_ge. lia.
Qed.

Section Grouping.
Context {S Item : Type} `{Importer S Item}.

Lemma sorted_groups_perm (lists : list (list component)) :
  Permutation (concat (map sorted_by_key lists)) (concat lists).
Proof.
  induction lists as [|l lists IH]; cbn [map concat]; [reflexivity|].
  unfold sorted_by_key at 1. now rewrite sorted_perm, IH.
Qed.

Lemma sorted_by_key_nonempty (events : list component) :
  events <> [] -> sorted_by_key events <> [].
Proof.
  intros Hne Hnil. apply Hne. apply Permutation_nil.
  rewrite <- Hnil. unfold sorted_by_key. apply sorted_perm.
Qed.

Lemma vevents_of_groups (ics : string) (items : list component)
    (vevents : list (list component)) :
  walk ics = inl items ->
  vevents_of ics = inl vevents ->
  exists groups,
    group_events [] (List.filter (fun item => String.eqb (comp_name item) "VEVENT") items)
      = inl groups
    /\ vevents = map (fun g => sorted_by_key (snd g)) groups.
Proof.
  intros Hwalk. unfold vevents_of. rewrite Hwalk.
  destruct (group_events [] _) as [groups|e]; [|discriminate].
  intros [= <-]. eauto.
Qed.

End Grouping.

(** X14. [import_ics] hands [import_event] one list of events per uid: the
    lists hold exactly the [VEVENT] components of the file (other
    components are left out), every event in the list of its uid and in no
    other, no list is empty, no two lists are for the same uid, and each
    list is the events of its uid in the order of the file, sorted by
    [sort_key]. *)
Theorem vevents_by_uid {S Item : Type} `{Importer S Item}
    (ics : string) (items : list component) (vevents : list (list component)) :
  let events := List.filter (fun item => String.eqb (comp_name item) "VEVENT") items in
  walk ics = inl items ->
  vevents_of ics = inl vevents ->
  exists uids,
    NoDup uids
    /\ Forall2 (fun uid vevent =>
                  vevent = sorted_by_key (List.filter (has_uid uid) events)
                  /\ vevent <> []) uids vevents
    /\ (forall event, In event events ->
          exists uid, In uid uids /\ has_uid uid event = true)
    /\ Permutation (concat vevents) events
    /\ (StrictWeakOrder sort_key_lt ->
        Forall (StronglySorted (le_of sort_key_lt)) vevents).
Proof.
  intros events Hwalk Hv.
  destruct (vevents_of_groups ics items vevents Hwalk Hv) as (groups & Hg & ->).
  fold events in Hg.
  destruct (group_events_grouped events [] [] groups Hg) as (Hnd & Hall & Hcov).
  { split; [constructor|]. split; constructor. }
  cbn [app] in Hall, Hcov.
  exists (map fst groups). split; [exact Hnd|]. split; [|split; [|split]].
  - clear Hnd Hcov Hg Hv. induction Hall as [|g groups [Hne Hev] _ IH]; cbn [map];
      [constructor|].
    constructor; [|exact IH].
    split; [now rewrite <- Hev|now apply sorted_by_key_nonempty].
  - intros event Hin. rewrite Forall_forall in Hcov.
    destruct (Hcov event (proj2 (list_elem_of_In _ _) Hin)) as (uid & Huid & Hk).
    exists uid. split; [exact Hk|now apply has_uid_own].
  - rewrite <- (map_map snd sorted_by_key), sorted_groups_perm.
    now rewrite (group_events_perm _ _ _ Hg).
  - intros Horder. apply Forall_map. apply Forall_forall. intros g _.
    apply (@sorted_sorted _ sort_key_lt Horder).
Qed.

(** A file with a time zone, a series [a] with an exception before its
    master, and an event [b] between them. *)
Lemma vevents_by_uid_witness :
  let file := [vtimezone; vevent_exception "a" "moved"; vevent "b" "once";
               vevent "a" "weekly"] in
  @vevents_of _ _ (sample_importer ["home"%string] file) "BEGIN:VCALENDAR"
  = inl [[vevent "a" "weekly"; vevent_exception "a" "moved"]; [vevent "b" "once"]]
  /\ Permutation
       (concat [[vevent "a" "weekly"; vevent_exception "a" "moved"]; [vevent "b" "once"]])
       [vevent_exception "a" "moved"; vevent "b" "once"; vevent "a" "weekly"].
Proof.
  intros file.
  assert (Hv : @vevents_of _ _ (sample_importer ["home"%string] file) "BEGIN:VCALENDAR"
               = inl [[vevent "a" "weekly"; vevent_exception "a" "moved"];
                      [vevent "b" "once"]])
    by (vm_compute; reflexivity).
  split; [exact Hv|].
  destruct (@vevents_by_uid _ _ (sample_importer ["home"%string] file)
              "BEGIN:VCALENDAR" file _ eq_refl Hv)
    as (uids & _ & _ & _ & Hperm & _).
  exact Hperm.
Defined.

(** X15. One [VEVENT] without a [UID] stops [import_ics] with a [KeyError]
    before anything is shown, asked or stored, wherever the event stands
    in the file and whatever the other events are. *)
Theorem import_ics_missing_uid {S Item : Type} `{Importer S Item}
    (locale : option Locale) (ics : string) (items : list component)
    (batch random_uid : bool) (w : world S) :
  walk ics = inl items ->
  (exists event, In event items /\ comp_name event = "VEVENT"%string
                 /\ properties event !! "UID"%string = None) ->
  import_ics locale ics batch random_uid w = (inr (KeyError "UID"), w).
Proof.
  intros Hwalk (event & Hin & Hname & Huid).
  unfold import_ics, bind, lift, vevents_of. rewrite Hwalk.
  rewrite group_events_missing; [reflexivity|].
  exists event. split; [|exact Huid].
  apply filter_In. split; [exact Hin|]. now apply String.eqb_eq.
Qed.

Lemma import_ics_missing_uid_witness :
  let file := [vevent "a" "weekly"; no_uid; vevent "b" "once"] in
  let w := mkWorld ["home"%string] [true] [] [] [] in
  @import_ics _ _ (sample_importer ["home"%string; "work"%string] file)
    (Some Sample.locale) "BEGIN:VCALENDAR" false false w
  = (inr (KeyError "UID"), w).
Proof.
  intros file w.
  apply (@import_ics_missing_uid _ _ (sample_importer ["home"%string; "work"%string] file)
           (Some Sample.locale) "BEGIN:VCALENDAR" file false false w eq_refl).
  exists no_uid. split; [right; left; reflexivity|]. split; reflexivity.
Defined.

Section Choice.
Context {S Item : Type} `{Importer S Item}.

Lemma index_in (names : list string) (number : Z) (name : string) :
  index names number = Some name -> In name names.
Proof.
  unfold index. destruct (_ && _); [|discriminate]. apply nth_error_In.
Qed.

Lemma choice_writable (value name : string) :
  choice value = Some name -> In name writable_names.
Proof.
  unfold choice.
  destruct (match int value with Some number => index writable_names number
                                | None => None end) as [found|] eqn:E.
  - intros [= <-]. destruct (int value); [|discriminate]. now apply index_in in E.
  - destruct (List.filter (String.prefix value) writable_names) as [|x [|y l]] eqn:F;
      try discriminate.
    intros [= <-].
    assert (Hin : In x (List.filter (String.prefix value) writable_names))
      by (rewrite F; now left).
    now apply filter_In in Hin.
Qed.

Lemma ask_chooses (values : list string) (name : string) (rest echoes : list string) :
  ask values = (inl name, rest, echoes) ->
  exists rejected chosen,
    values = rejected ++ chosen :: rest
    /\ Forall (fun value => choice value = None) rejected
    /\ choice chosen = Some name
    /\ echoes = repeat "invalid choice"%string (length rejected).
Proof.
  revert echoes. induction values as [|value values IH]; intros echoes; cbn [ask];
    [discriminate|].
  destruct (choice value) as [found|] eqn:E.
  - intros [= <- <- <-]. exists [], value. repeat split; [constructor|exact E].
  - destruct (ask values) as [[r rest'] echoes'] eqn:A. cbn [fst snd].
    intros [= -> -> <-].
    destruct (IH echoes' eq_refl) as (rejected & chosen & -> & Hrej & Hch & ->).
    exists (value :: rejected), chosen. repeat split; [now constructor|exact Hch].
Qed.

Lemma ask_aborts (values : list string) (e : error) (rest echoes : list string) :
  ask values = (inr e, rest, echoes) ->
  e = Abort /\ rest = []
  /\ Forall (fun value => choice value = None) values
  /\ echoes = repeat "invalid choice"%string (length values).
Proof.
  revert echoes. induction values as [|value values IH]; intros echoes; cbn [ask].
  - intros [= <- <- <-]. repeat split. constructor.
  - destruct (choice value) as [found|] eqn:E; [discriminate|].
    destruct (ask values) as [[r rest'] echoes'] eqn:A. cbn [fst snd].
    intros [= -> -> <-].
    destruct (IH echoes' eq_refl) as (-> & -> & Hrej & ->).
    repeat split. now constructor.
Qed.

Lemma filter_two {A : Type} (p : A -> bool) (l : list A) (x y z : A) :
  In x l -> In y l -> x <> y -> p x = true -> p y = true ->
  List.filter p l <> [z].
Proof.
  intros Hx Hy Hne Hpx Hpy Heq.
  assert (Hx' : In x (List.filter p l)) by (apply filter_In; now split).
  assert (Hy' : In y (List.filter p l)) by (apply filter_In; now split).
  rewrite Heq in Hx', Hy'.
  destruct Hx' as [<-|[]]. destruct Hy' as [<-|[]]. now apply Hne.
Qed.

Lemma filter_only {A : Type} (p : A -> bool) (l : list A) (x : A) :
  NoDup l -> In x l -> p x = true ->
  (forall y, In y l -> p y = true -> y = x) ->
  List.filter p l = [x].
Proof.
  intros Hnd. induction Hnd as [|a l Hnotin Hnd IH]; intros Hin Hpx Hall;
    [destruct Hin|].
  rewrite list_elem_of_In in Hnotin.
  cbn [List.filter]. destruct Hin as [->|Hin].
  - rewrite Hpx. f_equal. apply filter_none. intros y Hy.
    destruct (p y) eqn:Hpy; [|reflexivity].
    exfalso. apply Hnotin. rewrite <- (Hall y (or_intror Hy) Hpy). exact Hy.
  - destruct (p a) eqn:Hpa.
    + exfalso. apply Hnotin. rewrite (Hall a (or_introl eq_refl) Hpa). exact Hin.
    + apply IH; [exact Hin|exact Hpx|].
      intros y Hy. apply Hall. now right.
Qed.

Lemma prefix_refl (s : string) : String.prefix s s = true.
Proof.
  induction s as [|c s IH]; [reflexivity|].
  cbn [String.prefix]. destruct (Ascii.ascii_dec c c); [exact IH|contradiction].
Qed.

End Choice.

(** X16. When [import_event] asks for the calendar (not [batch], and not
    exactly one writable calendar), it reads answers until one stands for
    a calendar, echoes [invalid choice] once for every answer before it,
    and the calendar it ends with is a writable one; when the answers run
    out it raises [Abort], having rejected them all.  Neither the
    collection, the confirmations nor the log are touched. *)
Theorem target_calendar_asks {S Item : Type} `{Importer S Item}
    (w w' : world S) (r : string + error) :
  length writable_names <> 1%nat ->
  target_calendar false w = (r, w') ->
  store w' = store w /\ confirmations w' = confirmations w /\ logged w' = logged w
  /\ match r with
     | inl calendar_name =>
         In calendar_name writable_names
         /\ exists rejected chosen,
              answers w = rejected ++ chosen :: answers w'
              /\ Forall (fun value => choice value = None) rejected
              /\ choice chosen = Some calendar_name
              /\ echoed w' = echoed w ++ repeat "invalid choice"%string (length rejected)
     | inr e =>
         e = Abort /\ answers w' = []
         /\ Forall (fun value => choice value = None) (answers w)
         /\ echoed w' = echoed w ++ repeat "invalid choice"%string (length (answers w))
     end.
Proof.
  intros Hlen. unfold target_calendar. cbn [orb].
  destruct (length writable_names =? 1)%nat eqn:E;
    [apply Nat.eqb_eq in E; contradiction|].
  unfold ask_calendar. destruct (ask (answers w)) as [[res rest] echoes] eqn:A.
  cbn [fst snd]. intros [= <- <-]. cbn [store confirmations logged answers echoed].
  repeat split. destruct res as [calendar_name|e].
  - destruct (ask_chooses _ _ _ _ A) as (rejected & chosen & Hv & Hrej & Hch & ->).
    split; [now apply choice_writable in Hch|].
    exists rejected, chosen. now repeat split.
  - destruct (ask_aborts _ _ _ _ A) as (-> & -> & Hrej & ->). now repeat split.
Qed.

Lemma target_calendar_asks_witness :
  let importer := sample_importer ["home"%string; "work"%string; "homework"%string] [] in
  let w := mkWorld ["7"%string; "home"%string; "-2"%string; "left"%string] [true] []
             [] [] in
  @target_calendar _ _ importer false w
  = (inl "work"%string,
     mkWorld ["left"%string] [true] ["invalid choice"%string; "invalid choice"%string]
       [] [])
  /\ In "work"%string (@writable_names _ _ importer).
Proof.
  intros importer w.
  assert (Hrun : @target_calendar _ _ importer false w
                 = (inl "work"%string,
                    mkWorld ["left"%string] [true]
                      ["invalid choice"%string; "invalid choice"%string] [] []))
    by (vm_compute; reflexivity).
  split; [exact Hrun|].
  destruct (@target_calendar_asks _ _ importer w _ _ ltac:(cbn; lia) Hrun)
    as (_ & _ & _ & Hin & _).
  exact Hin.
Defined.

(** X17. An answer that is a number within the range of the list is an
    index into the writable calendars, as Python indexes a list: from [0]
    for the first, and from [-1] backwards for the last, whatever the
    calendars are called; a calendar whose name is that number is not
    looked for. *)
Theorem choice_by_number {S Item : Type} `{Importer S Item}
    (value : string) (number : Z) :
  let n := Z.of_nat (length writable_names) in
  int value = Some number ->
  - n <= number < n ->
  exists calendar_name,
    nth_error writable_names (Z.to_nat (number mod n)) = Some calendar_name
    /\ choice value = Some calendar_name.
Proof.
  intros n Hint Hrange. unfold choice. rewrite Hint. unfold index. fold n.
  assert (Hmod : (if number <? 0 then number + n else number) = number mod n).
  { destruct (number <? 0) eqn:E.
    - apply Z.ltb_lt in E. apply (Z.mod_unique _ _ (-1)); lia.
    - apply Z.ltb_ge in E. symmetry. apply Z.mod_small. lia. }
  rewrite Hmod.
  assert (Hpos : 0 <= number mod n < n) by (apply Z.mod_pos_bound; lia).
  destruct (0 <=? number mod n) eqn:E1; [|apply Z.leb_gt in E1; lia].
  destruct (number mod n <? n) eqn:E2; [|apply Z.ltb_ge in E2; lia].
  cbn [andb].
  destruct (nth_error writable_names (Z.to_nat (number mod n))) as [found|] eqn:E.
  - exists found. now split.
  - apply nth_error_None in E. unfold n in Hpos. lia.
Qed.

Lemma choice_by_number_witness :
  let importer := sample_importer ["1"%string; "0"%string; "work"%string] [] in
  @choice _ _ importer "0" = Some "1"%string
  /\ @choice _ _ importer "-1" = Some "work"%string.
Proof.
  intros importer.
  destruct (@choice_by_number _ _ importer "0" 0 eq_refl ltac:(cbn; lia))
    as (first & Hfirst & Hzero).
  destruct (@choice_by_number _ _ importer "-1" (-1) eq_refl ltac:(cbn; lia))
    as (final & Hfinal & Hminus).
  injection Hfirst as <-. injection Hfinal as <-. now split.
Defined.

(** X18. An answer that is not a number stands for a calendar when exactly
    one writable calendar begins with it.  So the full name of a calendar
    is accepted exactly when no other writable calendar begins with that
    name: of [home] and [homework], [home] cannot be chosen by its name. *)
Theorem choice_by_full_name {S Item : Type} `{Importer S Item}
    (calendar_name : string) :
  NoDup writable_names ->
  In calendar_name writable_names ->
  int calendar_name = None ->
  (choice calendar_name = Some calendar_name
   <-> forall other, In other writable_names ->
         String.prefix calendar_name other = true -> other = calendar_name).
Proof.
  intros Hnd Hin Hint. unfold choice. rewrite Hint. split.
  - intros Hch other Hother Hprefix.
    destruct (String.string_dec other calendar_name) as [Heq|Hne]; [exact Heq|].
    exfalso.
    destruct (List.filter (String.prefix calendar_name) writable_names)
      as [|x [|y l]] eqn:F; try discriminate.
    revert F. apply (filter_two _ _ other calendar_name); auto using prefix_refl.
  - intros Hall. rewrite (filter_only _ _ calendar_name); auto using prefix_refl.
Qed.

Lemma choice_by_full_name_witness :
  let importer := sample_importer ["home"%string; "work"%string; "homework"%string] [] in
  (@choice _ _ importer "work" = Some "work"%string
   <-> forall other, In other (@writable_names _ _ importer) ->
         String.prefix "work" other = true -> other = "work"%string)
  /\ @choice _ _ importer "home" = None.
Proof.
  intros importer. split; [|reflexivity].
  apply (@choice_by_full_name _ _ importer "work").
  - repeat constructor; rewrite list_elem_of_In; cbn; intuition discriminate.
  - cbn. tauto.
  - reflexivity.
Defined.

(** What [import_event] may do to the collection: [new], or, when [new]
    raised [DuplicateUid], [force_update]. *)
Definition wrote {S Item : Type} `{Importer S Item} (item : Item)
    (calendar_name : string) (s s' : S) : Prop :=
  new item calendar_name s = inl s'
  \/ (new item calendar_name s = inr DuplicateUid
      /\ force_update item calendar_name s = inl s').

(** What [import_ics] may do to it: for each list of events in turn, one
    such step or none. *)
Inductive imports {S Item : Type} `{Importer S Item} (random_uid : bool)
    : list (list component) -> S -> S -> Prop :=
| imports_nil (s : S) : imports random_uid [] s s
| imports_skip (vevent : list component) (vevents : list (list component)) (s s' : S) :
    imports random_uid vevents s s' ->
    imports random_uid (vevent :: vevents) s s'
| imports_write (vevent : list component) (vevents : list (list component))
    (calendar_name : string) (s s1 s' : S) :
    In calendar_name writable_names ->
    wrote (item_of vevent random_uid) calendar_name s s1 ->
    imports random_uid vevents s1 s' ->
    imports random_uid (vevent :: vevents) s s'.

Section ImportFacts.
Context {S Item : Type} `{Importer S Item}.

Lemma for_each_described (vevent : list component) (locale : Locale) (batch : bool)
    (w : world S) :
  for_each (fun sub_event =>
              if negb batch
              then echo (event_description sub_event default_calendar_name locale)
              else ret tt) vevent w
  = (inl tt,
     mkWorld (answers w) (confirmations w)
       (echoed w ++ (if batch then []
                     else map (fun sub_event =>
                                 event_description sub_event default_calendar_name locale)
                            vevent))
       (logged w) (store w)).
Proof.
  revert w. induction vevent as [|sub_event vevent IH]; intros w; cbn [for_each].
  - unfold ret. destruct w, batch; cbn; now rewrite app_nil_r.
  - unfold bind. destruct batch; cbn [negb].
    + unfold ret at 1. rewrite IH. reflexivity.
    + unfold echo at 1. rewrite IH. cbn [answers confirmations echoed logged store map].
      now rewrite <- app_assoc.
Qed.

Lemma target_calendar_frame (batch : bool) (w w' : world S) (r : string + error) :
  target_calendar batch w = (r, w') ->
  store w' = store w /\ confirmations w' = confirmations w /\ logged w' = logged w
  /\ (forall calendar_name, r = inl calendar_name -> In calendar_name writable_names)
  /\ (batch = true -> w' = w /\ r = match writable_names with
                                    | calendar_name :: _ => inl calendar_name
                                    | [] => inr IndexError
                                    end).
Proof.
  unfold target_calendar.
  destruct (batch || (length writable_names =? 1)%nat) eqn:E.
  - destruct writable_names as [|calendar_name names]; intros [= <- <-];
      repeat split; try discriminate.
    intros found [= <-]. now left.
  - apply orb_false_iff in E. destruct E as [-> E].
    unfold ask_calendar. destruct (ask (answers w)) as [[res rest] echoes] eqn:A.
    cbn [fst snd]. intros [= <- <-]. cbn [store confirmations logged].
    repeat split; try discriminate.
    intros found ->.
    destruct (ask_chooses _ _ _ _ A) as (rejected & chosen & _ & _ & Hch & _).
    now apply choice_writable in Hch.
Qed.

Lemma batch_or_confirm_frame (batch : bool) (w w' : world S) (r : bool + error) :
  batch_or_confirm batch w = (r, w') ->
  store w' = store w /\ logged w' = logged w /\ echoed w' = echoed w
  /\ answers w' = answers w
  /\ (batch = true -> w' = w /\ r = inl true)
  /\ (batch = false ->
      match confirmations w with
      | [] => r = inr Abort /\ w' = w
      | yes :: rest => r = inl yes /\ confirmations w' = rest
      end).
Proof.
  unfold batch_or_confirm. destruct batch.
  - intros [= <- <-]. repeat split; discriminate.
  - unfold confirm. destruct (confirmations w) as [|yes rest] eqn:C;
      intros [= <- <-]; repeat split; try discriminate.
Qed.

Lemma update_frame (f : S -> S + error) (w w' : world S) (r : unit + error) :
  update f w = (r, w') ->
  answers w' = answers w /\ confirmations w' = confirmations w
  /\ echoed w' = echoed w /\ logged w' = logged w
  /\ match f (store w) with
     | inl s => r = inl tt /\ store w' = s
     | inr e => r = inr e /\ w' = w
     end.
Proof.
  unfold update. destruct (f (store w)) as [s|e]; intros [= <- <-]; now repeat split.
Qed.

Lemma imports_refl (random_uid : bool) (vevents : list (list component)) (s : S) :
  imports random_uid vevents s s.
Proof.
  induction vevents as [|vevent vevents IH]; [constructor|now apply imports_skip].
Qed.

End ImportFacts.

Lemma import_event_writes {S Item : Type} `{Importer S Item}
    (vevent : list component) (locale : Locale) (batch random_uid : bool)
    (w w' : world S) (r : unit + error) :
  import_event vevent locale batch random_uid w = (r, w') ->
  store w' = store w
  \/ exists calendar_name,
       In calendar_name writable_names
       /\ wrote (item_of vevent random_uid) calendar_name (store w) (store w').
Proof.
  unfold import_event, bind at 1. rewrite for_each_described.
  set (w0 := mkWorld _ _ _ _ _). change (store w) with (store w0). clearbody w0.
  unfold bind at 1.
  destruct (target_calendar batch w0) as [[calendar_name|e] w1] eqn:T;
    apply target_calendar_frame in T; destruct T as (Hs1 & _ & _ & Hin & _);
    [|intros [= <- <-]; now left].
  specialize (Hin calendar_name eq_refl). rewrite <- Hs1. clear Hs1 w0.
  unfold bind at 1.
  destruct (batch_or_confirm batch w1) as [[yes|e] w2] eqn:B;
    apply batch_or_confirm_frame in B; destruct B as (Hs2 & _);
    [|intros [= <- <-]; now left].
  rewrite <- Hs2. clear Hs2 w1.
  destruct yes; [|intros [= <- <-]; now left].
  destruct (update (new (item_of vevent random_uid) calendar_name) w2)
    as [[[]|e] w3] eqn:U; apply update_frame in U; destruct U as (_ & _ & _ & _ & U).
  - intros [= <- <-]. right. exists calendar_name. split; [exact Hin|]. left.
    destruct (new _ _ _); destruct U as [U1 U2]; [now subst|discriminate].
  - destruct (new (item_of vevent random_uid) calendar_name (store w2)) as [s|e'] eqn:N;
      destruct U as [[= <-] ->].
    assert (Hdup : forall r0 w0,
              (inr e : unit + error, w2) = (r0, w0) -> store w0 = store w2)
      by (now intros r0 w0 [= <- <-]).
    destruct e; try (intros Heq; left; exact (Hdup _ _ Heq)). clear Hdup.
    unfold bind.
    destruct (batch_or_confirm batch w2) as [[again|e] w4] eqn:B;
      apply batch_or_confirm_frame in B; destruct B as (Hs4 & _);
      [|intros [= <- <-]; now left].
    destruct again.
    + destruct (update (force_update (item_of vevent random_uid) calendar_name) w4)
        as [r5 w5] eqn:U; apply update_frame in U; destruct U as (_ & _ & _ & _ & U).
      intros [= <- <-]. rewrite Hs4 in U.
      destruct (force_update _ _ (store w2)) as [s|e] eqn:F.
      * right. exists calendar_name. split; [exact Hin|]. right.
        destruct U as [_ ->]. now split.
      * left. destruct U as [_ ->]. exact Hs4.
    + destruct (if batch then None else last vevent) as [event|];
        intros [= <- <-]; left; exact Hs4.
Qed.

(** X19. Whatever is answered, and whether it ends well or not,
    [import_event] changes the collection at most once: by [new] of the
    item made of the events, or by [force_update] of that item after
    [new] raised [DuplicateUid], and on a writable calendar. *)
Theorem import_event_store {S Item : Type} `{Importer S Item}
    (vevent : list component) (locale : Locale) (batch random_uid : bool)
    (w w' : world S) (r : unit + error) :
  import_event vevent locale batch random_uid w = (r, w') ->
  store w' = store w
  \/ exists calendar_name,
       In calendar_name writable_names
       /\ wrote (item_of vevent random_uid) calendar_name (store w) (store w').
Proof.
  apply import_event_writes.
Qed.

(** Two calendars, the answer [work], and a uid that is there already:
    the item is rewritten in [work]. *)
Lemma import_event_store_witness :
  let importer := sample_importer ["home"%string; "work"%string] [] in
  let w := mkWorld ["work"%string] [true; true] [] [] [("home"%string, "a"%string)] in
  let w' := mkWorld [] [] ["weekly"%string] [] [("work"%string, "a"%string)] in
  @import_event _ _ importer [vevent "a" "weekly"] Sample.locale false false w
  = (inl tt, w')
  /\ (store w' = store w
      \/ exists calendar_name,
           In calendar_name (@writable_names _ _ importer)
           /\ @wrote _ _ importer
                (@item_of _ _ importer [vevent "a" "weekly"] false) calendar_name
                (store w) (store w')).
Proof.
  intros importer w w'.
  assert (Hrun : @import_event _ _ importer [vevent "a" "weekly"] Sample.locale
                   false false w = (inl tt, w'))
    by (vm_compute; reflexivity).
  split; [exact Hrun|].
  exact (@import_event_store _ _ importer _ _ _ _ _ _ _ Hrun).
Defined.

Lemma import_event_batch_frame {S Item : Type} `{Importer S Item}
    (vevent : list component) (locale : Locale) (random_uid : bool)
    (w w' : world S) (r : unit + error) :
  import_event vevent locale true random_uid w = (r, w') ->
  answers w' = answers w /\ confirmations w' = confirmations w
  /\ echoed w' = echoed w /\ logged w' = logged w
  /\ (store w' <> store w ->
      exists calendar_name,
        head writable_names = Some calendar_name
        /\ wrote (item_of vevent random_uid) calendar_name (store w) (store w'))
  /\ (r = inr DuplicateUid ->
      exists calendar_name,
        head writable_names = Some calendar_name
        /\ force_update (item_of vevent random_uid) calendar_name (store w)
           = inr DuplicateUid).
Proof.
  unfold import_event, bind at 1. rewrite for_each_described.
  rewrite app_nil_r. cbn [batch_or_confirm target_calendar orb].
  replace (mkWorld (answers w) (confirmations w) (echoed w) (logged w) (store w))
    with w by now destruct w.
  unfold bind.
  destruct writable_names as [|calendar_name names].
  { unfold throw. intros [= <- <-]. repeat split; try easy. }
  unfold ret at 1 2.
  destruct (update (new (item_of vevent random_uid) calendar_name) w)
    as [[[]|e] w1] eqn:U; apply update_frame in U;
    destruct U as (Ha & Hc & He & Hl & U).
  - intros [= <- <-]. repeat split; try easy.
    intros _. exists calendar_name. split; [reflexivity|]. left.
    destruct (new _ _ _); destruct U as [U1 U2]; [now subst|discriminate].
  - destruct (new (item_of vevent random_uid) calendar_name (store w)) as [s|e'] eqn:N;
      destruct U as [[= <-] ->].
    destruct e; try (intros [= <- <-]; repeat split; easy).
    unfold ret.
    destruct (update (force_update (item_of vevent random_uid) calendar_name) w)
      as [r2 w2] eqn:U; apply update_frame in U;
      destruct U as (Ha2 & Hc2 & He2 & Hl2 & U).
    intros [= <- <-]. repeat split; try easy.
    + intros Hne. exists calendar_name. split; [reflexivity|]. right.
      split; [exact N|].
      destruct (force_update _ _ _) as [s|e]; destruct U as [_ U].
      * now subst.
      * now subst.
    + intros ->. exists calendar_name. split; [reflexivity|].
      destruct (force_update _ _ _) as [s|e]; destruct U as [U _]; [discriminate|].
      now injection U as <-.
Qed.



(** X21. Asked for the import and answered no, [import_event] leaves the
    collection and the log as they were, whatever calendar was chosen; it
    ends well, or with [Abort] when the answers ran out before a calendar
    was chosen. *)
Theorem import_event_declined {S Item : Type} `{Importer S Item}
    (vevent : list component) (locale : Locale) (random_uid : bool)
    (rest : list bool) (w w' : world S) (r : unit + error) :
  confirmations w = false :: rest ->
  import_event vevent locale false random_uid w = (r, w') ->
  store w' = store w /\ logged w' = logged w
  /\ ((r = inl tt /\ confirmations w' = rest)
      \/ (r = inr Abort /\ confirmations w' = false :: rest /\ answers w' = [])).
Proof.
  intros Hconf. unfold import_event, bind at 1. rewrite for_each_described.
  set (w0 := mkWorld _ _ _ _ _).
  change (store w) with (store w0). change (logged w) with (logged w0).
  assert (Hc0 : confirmations w0 = false :: rest) by exact Hconf.
  clearbody w0. unfold bind at 1.
  destruct (target_calendar false w0) as [[calendar_name|e] w1] eqn:T.
  - apply target_calendar_frame in T. destruct T as (Hs1 & Hc1 & Hl1 & _).
    unfold bind. cbn [batch_or_confirm]. unfold confirm.
    rewrite Hc1, Hc0. unfold ret. intros [= <- <-].
    cbn [store logged confirmations]. repeat split; try easy. now left.
  - intros [= <- <-].
    unfold target_calendar in T. cbn [orb] in T.
    destruct (length writable_names =? 1)%nat eqn:E.
    + destruct writable_names; [discriminate E|discriminate T].
    + unfold ask_calendar in T.
      destruct (ask (answers w0)) as [[res left] echoes] eqn:A. cbn [fst snd] in T.
      injection T as -> <-. cbn [store logged confirmations answers].
      destruct (ask_aborts _ _ _ _ A) as (-> & -> & _).
      repeat split. right. now repeat split.
Qed.

Lemma import_event_declined_witness :
  let importer := sample_importer ["home"%string; "work"%string] [] in
  let w := mkWorld ["1"%string] [false; true] [] [] [] in
  let w' := mkWorld [] [true] ["weekly"%string] [] [] in
  @import_event _ _ importer [vevent "a" "weekly"] Sample.locale false false w
  = (inl tt, w')
  /\ store w' = store w /\ logged w' = logged w.
Proof.
  intros importer w w'.
  assert (Hrun : @import_event _ _ importer [vevent "a" "weekly"] Sample.locale
                   false false w = (inl tt, w'))
    by (vm_compute; reflexivity).
  split; [exact Hrun|].
  destruct (@import_event_declined _ _ importer _ _ _ [true] w w' _ eq_refl Hrun)
    as (Hs & Hl & _).
  now split.
Defined.

(** X22. One writable calendar, the import confirmed, the uid there
    already and the update refused: the descriptions of all the events
    were echoed in their order, both confirmations are used up, the
    collection is as it was, and one warning names the uid of the last
    event of the list.  With no event in the list there is none to name,
    and the warning is an [UnboundLocalError] instead. *)
Theorem import_event_duplicate_refused {S Item : Type} `{Importer S Item}
    (vevent : list component) (locale : Locale) (random_uid : bool)
    (calendar_name : string) (rest : list bool) (w : world S) :
  writable_names = [calendar_name] ->
  confirmations w = true :: false :: rest ->
  new (item_of vevent random_uid) calendar_name (store w) = inr DuplicateUid ->
  import_event vevent locale false random_uid w
  = (match last vevent with
     | Some _ => inl tt
     | None => inr (UnboundLocalError "event")
     end,
     mkWorld (answers w) rest
       (echoed w ++ map (fun sub_event =>
                           event_description sub_event default_calendar_name locale)
                      vevent)
       (logged w ++ match last vevent with
                    | Some event =>
                        [("warning"%string,
                          ("Not importing event with UID " +:+ backquote
                           +:+ event_uid event +:+ backquote)%string)]
                    | None => []
                    end)
       (store w)).
Proof.
  intros Hnames Hconf Hnew. unfold import_event, bind at 1.
  rewrite for_each_described. unfold bind, target_calendar. rewrite Hnames.
  cbn [length Nat.eqb orb batch_or_confirm]. unfold ret, confirm at 1.
  cbn [confirmations]. rewrite Hconf.
  unfold update. cbn [store]. rewrite Hnew.
  unfold confirm. cbn [confirmations answers echoed logged store].
  destruct (last vevent) as [event|].
  - reflexivity.
  - unfold throw. now rewrite app_nil_r.
Qed.

Lemma import_event_duplicate_refused_witness :
  let importer := sample_importer ["home"%string] [] in
  let w := mkWorld [] [true; false] [] [] [("home"%string, "a"%string)] in
  @import_event _ _ importer [vevent "a" "weekly"; vevent_exception "a" "moved"]
    Sample.locale false false w
  = (inl tt,
     mkWorld [] [] ["weekly"%string; "moved"%string]
       [("warning"%string, "Not importing event with UID `a`"%string)]
       [("home"%string, "a"%string)]).
Proof.
  intros importer w.
  exact (@import_event_duplicate_refused _ _ importer
           [vevent "a" "weekly"; vevent_exception "a" "moved"] Sample.locale false
           "home" [] w eq_refl eq_refl eq_refl).
Defined.

Section ImportIcsFacts.
Context {S Item : Type} `{Importer S Item}.

Lemma for_each_imports (locale : option Locale) (batch random_uid : bool)
    (vevents : list (list component)) (w w' : world S) (r : unit + error) :
  for_each (fun vevent =>
              match locale with
              | Some locale => import_event vevent locale batch random_uid
              | None => throw (KeyError "locale")
              end) vevents w = (r, w') ->
  imports random_uid vevents (store w) (store w').
Proof.
  revert w. induction vevents as [|vevent vevents IH]; intros w; cbn [for_each].
  - intros [= <- <-]. constructor.
  - unfold bind. destruct locale as [locale|].
    + destruct (import_event vevent locale batch random_uid w) as [[[]|e] w1] eqn:E;
        apply import_event_writes in E.
      * intros Hrest. apply IH in Hrest.
        destruct E as [<-|(calendar_name & Hin & Hw)].
        -- now apply imports_skip.
        -- now apply (imports_write _ _ _ calendar_name _ (store w1)).
      * intros [= <- <-].
        destruct E as [->|(calendar_name & Hin & Hw)].
        -- apply imports_refl.
        -- apply (imports_write _ _ _ calendar_name _ (store w1)); auto.
           apply imports_refl.
    + intros [= <- <-]. apply imports_refl.
Qed.

Lemma for_each_batch_quiet (locale : option Locale) (random_uid : bool)
    (vevents : list (list component)) (w w' : world S) (r : unit + error) :
  for_each (fun vevent =>
              match locale with
              | Some locale => import_event vevent locale true random_uid
              | None => throw (KeyError "locale")
              end) vevents w = (r, w') ->
  answers w' = answers w /\ confirmations w' = confirmations w
  /\ echoed w' = echoed w /\ logged w' = logged w.
Proof.
  revert w. induction vevents as [|vevent vevents IH]; intros w; cbn [for_each].
  - now intros [= <- <-].
  - unfold bind. destruct locale as [locale|]; [|now intros [= <- <-]].
    destruct (import_event vevent locale true random_uid w) as [[[]|e] w1] eqn:E;
      apply import_event_batch_frame in E; destruct E as (Ha & Hc & He & Hl & _).
    + intros Hrest. apply IH in Hrest. destruct Hrest as (Ha' & Hc' & He' & Hl').
      repeat split; congruence.
    + now intros [= <- <-].
Qed.

Lemma group_events_error (events : list component)
    (groups : list (string * list component)) (e : error) :
  group_events groups events = inr e -> e = KeyError "UID".
Proof.
  revert groups. induction events as [|event events IH]; intros groups;
    cbn [group_events]; [discriminate|].
  unfold property. destruct (properties event !! "UID"%string); [apply IH|].
  now intros [= <-].
Qed.

Lemma group_events_nonempty (events : list component)
    (groups : list (string * list component)) :
  events <> [] -> group_events [] events = inl groups -> groups <> [].
Proof.
  intros Hne Hg ->. apply group_events_perm in Hg. cbn in Hg.
  apply Hne. now apply Permutation_nil.
Qed.

End ImportIcsFacts.


(** X24. With [batch] set, [import_ics] reads no answer and no
    confirmation, echoes nothing and logs nothing, however many events the
    file has and however it ends. *)
Theorem import_ics_batch_quiet {S Item : Type} `{Importer S Item}
    (locale : option Locale) (ics : string) (random_uid : bool)
    (w w' : world S) (r : unit + error) :
  import_ics locale ics true random_uid w = (r, w') ->
  answers w' = answers w /\ confirmations w' = confirmations w
  /\ echoed w' = echoed w /\ logged w' = logged w.
Proof.
  unfold import_ics, bind at 1, lift.
  destruct (vevents_of ics) as [vevents|e]; [|now intros [= <- <-]].
  apply for_each_batch_quiet.
Qed.

Lemma import_ics_batch_quiet_witness :
  let file := [vtimezone; vevent_exception "a" "moved"; vevent "b" "once";
               vevent "a" "weekly"] in
  let importer := sample_importer ["home"%string; "work"%string] file in
  let w := mkWorld ["work"%string] [false] [] [] [("work"%string, "b"%string)] in
  let w' := mkWorld ["work"%string] [false] [] []
              [("home"%string, "a"%string); ("home"%string, "b"%string)] in
  @import_ics _ _ importer (Some Sample.locale) "BEGIN:VCALENDAR" true false w
  = (inl tt, w')
  /\ answers w' = answers w /\ confirmations w' = confirmations w
  /\ echoed w' = echoed w /\ logged w' = logged w.
Proof.
  intros file importer w w'.
  assert (Hrun : @import_ics _ _ importer (Some Sample.locale) "BEGIN:VCALENDAR"
                   true false w = (inl tt, w'))
    by (vm_compute; reflexivity).
  split; [exact Hrun|].
  exact (@import_ics_batch_quiet _ _ importer _ _ _ w w' _ Hrun).
Defined.




(** A collection for trying [new_from_string]: the calendar [readonly]
    cannot be written, an empty [date_list] cannot be parsed, and the
    format [{oops}] names a key that is not there. *)
Definition sample_creator : Creator (list (string * string)) (string * component) := {|
  construct_event := fun date_list _ _ =>
    match date_list with
    | [] => inr FatalError
    | word :: _ => inl (vevent "new" word)
    end;
  from_vevents := fun event calendar_name _ => (calendar_name, event);
  new_event := fun event items =>
    if String.eqb (fst event) "readonly" then inr ReadOnlyCalendarError
    else inl (items ++ [(fst event, sample_uid (snd event))]);
  format_now := fun event format =>
    if String.eqb format "{oops}" then inr (KeyError "oops")
    else inl (format +:+ sample_summary (snd event))%string;
  path_of := fun _ event =>
    inl ("/" +:+ fst event +:+ "/" +:+ sample_uid (snd event) +:+ ".ics")%string
|}.

Definition no_options : NewOptions := mkNewOptions None None None None None.

Definition print_event_conf : gmap string (gmap string string) :=
  {[ "default"%string := {[ "print_new"%string := "event"%string ]};
     "view"%string := {[ "event_format"%string := "new: "%string ]} ]}.

(** X26. A calendar that cannot be written ends [new_from_string] with
    exit status 1 and one critical line in the log that names the
    calendar; nothing is echoed, and the settings of [print_new] and of
    the format are not looked at. *)
Theorem new_from_string_read_only {S E : Type} `{Creator S E}
    (calendar_name : string) (conf : gmap string (gmap string string))
    (locale : Locale) (date_list : list string) (options : NewOptions)
    (format : option string) (event : component) (w : world S) :
  construct_event date_list options locale = inl event ->
  new_event (from_vevents event calendar_name locale) (store w)
  = inr ReadOnlyCalendarError ->
  new_from_string calendar_name conf (Some locale) date_list options format w
  = (inr (SystemExit 1),
     mkWorld (answers w) (confirmations w) (echoed w)
       (logged w ++ [("critical"%string, read_only_message calendar_name)])
       (store w)).
Proof.
  intros Hev Hnew. unfold new_from_string, bind, lift. rewrite Hev.
  unfold update. rewrite Hnew. reflexivity.
Qed.

Lemma new_from_string_read_only_witness :
  let w := mkWorld [] [] [] [] [] in
  @new_from_string _ _ sample_creator "readonly" ∅ (Some Sample.locale)
    ["tomorrow"%string] no_options None w
  = (inr (SystemExit 1),
     mkWorld [] [] []
       [("critical"%string,
         read_only_message "readonly")] []).
Proof.
  intros w.
  exact (@new_from_string_read_only _ _ sample_creator "readonly" ∅ Sample.locale
           ["tomorrow"%string] no_options None (vevent "new" "tomorrow") w
           eq_refl eq_refl).
Defined.

(** X27. [new_from_string] reads no answer and no confirmation, echoes at
    most one text and only when it ends well, logs nothing but the line
    of a calendar that cannot be written, and ends well only after the
    event built of [date_list] was stored by [collection.new]. *)
Theorem new_from_string_effects {S E : Type} `{Creator S E}
    (calendar_name : string) (conf : gmap string (gmap string string))
    (locale : option Locale) (date_list : list string) (options : NewOptions)
    (format : option string) (w w' : world S) (r : unit + error) :
  new_from_string calendar_name conf locale date_list options format w = (r, w') ->
  answers w' = answers w /\ confirmations w' = confirmations w
  /\ (echoed w' = echoed w
      \/ exists text, echoed w' = echoed w ++ [text] /\ r = inl tt)
  /\ (logged w' = logged w
      \/ (logged w' = logged w ++ [("critical"%string, read_only_message calendar_name)]
          /\ r = inr (SystemExit 1) /\ store w' = store w))
  /\ (r = inl tt ->
      exists locale_ event,
        locale = Some locale_
        /\ construct_event date_list options locale_ = inl event
        /\ new_event (from_vevents event calendar_name locale_) (store w)
           = inl (store w')).
Proof.
  unfold new_from_string, bind at 1, lift at 1.
  destruct locale as [locale_|];
    [|intros [= <- <-]; repeat split; auto; discriminate].
  unfold bind at 1, lift at 1.
  destruct (construct_event date_list options locale_) as [event|e] eqn:C.
  2:{ destruct e; intros [= <- <-]; repeat split; auto; discriminate. }
  unfold bind at 1.
  destruct (update (new_event (from_vevents event calendar_name locale_)) w)
    as [[[]|e] w1] eqn:U; apply update_frame in U;
    destruct U as (Ha & Hc & He & Hl & U).
  2:{ destruct (new_event _ (store w)) as [s|e'] eqn:N; destruct U as [[= <-] ->].
      destruct e; intros [= <- <-]; cbn [answers confirmations echoed logged store];
        repeat split; auto; discriminate. }
  destruct (new_event _ (store w)) as [s|e'] eqn:N; destruct U as [U1 U2];
    [|discriminate].
  subst s. rewrite <- Ha, <- Hc, <- He, <- Hl. clear Ha Hc He Hl U1.
  assert (Hechoed : forall (c : string + error) (r0 : unit + error) (w0 : world S),
            bind (fun w2 => (c, w2)) echo w1 = (r0, w0) ->
            answers w0 = answers w1 /\ confirmations w0 = confirmations w1
            /\ (echoed w0 = echoed w1
                \/ exists text, echoed w0 = echoed w1 ++ [text] /\ r0 = inl tt)
            /\ logged w0 = logged w1 /\ store w0 = store w1).
  { intros c r0 w0. unfold bind, echo. destruct c as [text|e]; intros [= <- <-];
      cbn [answers confirmations echoed logged store]; repeat split; auto.
    right. now exists text. }
  assert (Hdone : forall (r0 : unit + error) (w0 : world S),
            answers w0 = answers w1 /\ confirmations w0 = confirmations w1
            /\ (echoed w0 = echoed w1
                \/ exists text, echoed w0 = echoed w1 ++ [text] /\ r0 = inl tt)
            /\ logged w0 = logged w1 /\ store w0 = store w1 ->
            answers w0 = answers w1 /\ confirmations w0 = confirmations w1
            /\ (echoed w0 = echoed w1
                \/ exists text, echoed w0 = echoed w1 ++ [text] /\ r0 = inl tt)
            /\ (logged w0 = logged w1
                \/ (logged w0
                    = logged w1 ++ [("critical"%string, read_only_message calendar_name)]
                    /\ r0 = inr (SystemExit 1) /\ store w0 = store w))
            /\ (r0 = inl tt ->
                exists locale_0 event0,
                  Some locale_ = Some locale_0
                  /\ construct_event date_list options locale_0 = inl event0
                  /\ new_event (from_vevents event0 calendar_name locale_0) (store w)
                     = inl (store w0))).
  { intros r0 w0 (Ha & Hc & He & Hl & Hs). repeat split; auto.
    intros _. exists locale_, event. rewrite Hs. now repeat split. }
  unfold bind at 1, lift at 1.
  destruct (item conf "default" "print_new") as [print_new|e];
    [|intros [= <- <-]; apply Hdone; repeat split; auto].
  destruct (String.eqb print_new "event").
  - unfold bind at 1.
    destruct format as [format|].
    + unfold ret at 1. intros Hrun. apply Hdone.
      apply (Hechoed (format_now (from_vevents event calendar_name locale_) format)).
      exact Hrun.
    + unfold lift at 1.
      destruct (item conf "view" "event_format") as [format|e];
        [|intros [= <- <-]; apply Hdone; repeat split; auto].
      intros Hrun. apply Hdone.
      apply (Hechoed (format_now (from_vevents event calendar_name locale_) format)).
      exact Hrun.
  - destruct (String.eqb print_new "path").
    + intros Hrun. apply Hdone.
      apply (Hechoed (path_of (store w1) (from_vevents event calendar_name locale_))).
      exact Hrun.
    + unfold ret. intros [= <- <-]. apply Hdone. repeat split; auto.
Qed.

Lemma new_from_string_effects_witness :
  let w := mkWorld [] [] [] [] [] in
  let w' := mkWorld [] [] ["new: tomorrow"%string] [] [("home"%string, "new"%string)] in
  @new_from_string _ _ sample_creator "home" print_event_conf (Some Sample.locale)
    ["tomorrow"%string] no_options None w = (inl tt, w')
  /\ (echoed w' = echoed w
      \/ exists text, echoed w' = echoed w ++ [text] /\ inl tt = inl tt :> unit + error).
Proof.
  intros w w'.
  assert (Hrun : @new_from_string _ _ sample_creator "home" print_event_conf
                   (Some Sample.locale) ["tomorrow"%string] no_options None w
                 = (inl tt, w'))
    by (vm_compute; reflexivity).
  split; [exact Hrun|].
  destruct (@new_from_string_effects _ _ sample_creator _ _ _ _ _ _ w w' _ Hrun)
    as (_ & _ & Hecho & _).
  exact Hecho.
Defined.

(** X28. The event is stored before [print_new] is looked at: once
    [collection.new] has taken it, it stays in the collection however
    [new_from_string] ends, also when the setting is missing or the
    format cannot be applied and the command ends with that exception. *)
Theorem new_from_string_stored_first {S E : Type} `{Creator S E}
    (calendar_name : string) (conf : gmap string (gmap string string))
    (locale : Locale) (date_list : list string) (options : NewOptions)
    (format : option string) (event : component) (s : S) (w w' : world S)
    (r : unit + error) :
  construct_event date_list options locale = inl event ->
  new_event (from_vevents event calendar_name locale) (store w) = inl s ->
  new_from_string calendar_name conf (Some locale) date_list options format w
  = (r, w') ->
  store w' = s
  /\ (forall e, item conf "default" "print_new" = inr e ->
      r = inr e /\ echoed w' = echoed w).
Proof.
  intros Hev Hnew Hrun.
  assert (Hstore : exists w1,
            store w1 = s /\ echoed w1 = echoed w
            /\ bind (lift (item conf "default" "print_new")) (fun print_new =>
                 if String.eqb print_new "event" then
                   bind (match format with
                         | None => lift (item conf "view" "event_format")
                         | Some format => ret format
                         end) (fun format =>
                   bind (lift (format_now (from_vevents event calendar_name locale)
                                 format)) echo)
                 else if String.eqb print_new "path" then
                   bind (fun w => (path_of (store w)
                                     (from_vevents event calendar_name locale), w)) echo
                 else ret tt) w1 = (r, w')).
  { revert Hrun. unfold new_from_string, bind at 1 2 3, lift at 1 2. rewrite Hev.
    unfold update. rewrite Hnew. intros Hrun.
    eexists. split; [|split; [|exact Hrun]]; reflexivity. }
  destruct Hstore as (w1 & Hs & He & Hrest). clear Hrun. split.
  - rewrite <- Hs. revert Hrest. unfold bind at 1, lift at 1.
    destruct (item conf "default" "print_new") as [print_new|e];
      [|now intros [= <- <-]].
    assert (Hecho : forall (c : string + error) (r0 : unit + error) (w0 : world S),
              bind (fun w2 => (c, w2)) echo w1 = (r0, w0) -> store w0 = store w1).
    { intros c r0 w0. unfold bind, echo. now destruct c; intros [= <- <-]. }
    destruct (String.eqb print_new "event").
    + unfold bind at 1. destruct format as [format|].
      * unfold ret at 1.
        apply (Hecho (format_now (from_vevents event calendar_name locale) format)).
      * unfold lift at 1.
        destruct (item conf "view" "event_format") as [format|e];
          [|now intros [= <- <-]].
        apply (Hecho (format_now (from_vevents event calendar_name locale) format)).
    + destruct (String.eqb print_new "path").
      * apply (Hecho (path_of (store w1) (from_vevents event calendar_name locale))).
      * unfold ret. now intros [= <- <-].
  - intros e He'. revert Hrest. unfold bind at 1, lift at 1. rewrite He'.
    intros [= <- <-]. now split.
Qed.

Lemma new_from_string_stored_first_witness :
  let w := mkWorld [] [] [] [] [] in
  let w' := mkWorld [] [] [] [] [("home"%string, "new"%string)] in
  @new_from_string _ _ sample_creator "home" ∅ (Some Sample.locale)
    ["tomorrow"%string] no_options None w = (inr (KeyError "default"), w')
  /\ store w' = [("home"%string, "new"%string)].
Proof.
  intros w w'.
  assert (Hrun : @new_from_string _ _ sample_creator "home" ∅ (Some Sample.locale)
                   ["tomorrow"%string] no_options None w
                 = (inr (KeyError "default"), w'))
    by (vm_compute; reflexivity).
  split; [exact Hrun|].
  destruct (@new_from_string_stored_first _ _ sample_creator "home" ∅ Sample.locale
              ["tomorrow"%string] no_options None (vevent "new" "tomorrow")
              [("home"%string, "new"%string)] w w' _ eq_refl eq_refl Hrun)
    as (Hs & _).
  exact Hs.
Defined.

(** X29. A [date_list] that [aux.construct_event] refuses with
    [FatalError] ends [new_from_string] with exit status 1 before the
    collection is touched; nothing is logged here and nothing echoed. *)
Theorem new_from_string_fatal {S E : Type} `{Creator S E}
    (calendar_name : string) (conf : gmap string (gmap string string))
    (locale : Locale) (date_list : list string) (options : NewOptions)
    (format : option string) (w : world S) :
  construct_event date_list options locale = inr FatalError ->
  new_from_string calendar_name conf (Some locale) date_list options format w
  = (inr (SystemExit 1), w).
Proof.
  intros Hev. unfold new_from_string, bind, lift. now rewrite Hev.
Qed.

Lemma new_from_string_fatal_witness :
  let w := mkWorld [] [] [] [] [("home"%string, "old"%string)] in
  @new_from_string _ _ sample_creator "home" print_event_conf (Some Sample.locale)
    [] no_options None w
  = (inr (SystemExit 1), w).
Proof.
  intros w.
  exact (@new_from_string_fatal _ _ sample_creator "home" print_event_conf
           Sample.locale [] no_options None w eq_refl).
Defined.

End CommandFacts.
